(** * langchain-wenxin: the Wenxin HTTP client ([src/langchain_wenxin/client.py])

    A shallow embedding of the class [WenxinClient] and the properties of its
    operations: endpoint resolution, the access-token cache, message
    construction, the completion and embedding calls with their response
    envelope check, and the two streaming generators.

    Conventions of the embedding.
    - A Python [str] is a list of code points, [bytes] a list of [byte].
    - A decoded JSON document (and every Python value the client stores or
      receives from one) is a [json] tree.  JSON numbers are the integers; the
      provider documents [expires_in] and [error_code] as integers.
    - A method of the client is a computation [M A]: it reads and writes the
      instance attributes and appends every HTTP request it issues to a log;
      it ends with a value or with a raised exception, and what it wrote
      before raising stays written, as in Python.
    - The HTTP transport is a function from the request to what the library
      hands back; [time.time()] is the argument [now]. *)

From Stdlib Require Import String Ascii DecimalString ZArith NArith Bool Lia List.
From Stdlib.Strings Require Import Byte.
Import ListNotations.

Set Implicit Arguments.
Set Warnings "-register-all".

(* ================================================================== *)
(** * Part I: the embedding *)
(* ================================================================== *)

(** ** Strings and bytes *)

Definition codepoint := N.
Definition str := list codepoint.
Definition bytes := list byte.

(** A string literal of the source, as a [str] and as a [bytes] value. *)
Definition lit (s : string) : str :=
  map N_of_ascii (list_ascii_of_string s).

Definition blit (s : string) : bytes := list_byte_of_string s.

Fixpoint list_eqb {A : Type} (eqb : A -> A -> bool) (a b : list A) : bool :=
  match a, b with
  | [], [] => true
  | x :: a', y :: b' => eqb x y && list_eqb eqb a' b'
  | _, _ => false
  end.

Definition str_eqb : str -> str -> bool := list_eqb N.eqb.
Definition bytes_eqb : bytes -> bytes -> bool := list_eqb Byte.eqb.

(** [s[-n:]] for [n > 0] and [s[:n]]. *)
Definition last_chars {A : Type} (n : nat) (s : list A) : list A :=
  skipn (length s - n) s.

Definition first_chars {A : Type} (n : nat) (s : list A) : list A :=
  firstn n s.

(** [s.startswith(p)] and [s.endswith(p)]. *)
Definition startswith {A : Type} (eqb : A -> A -> bool) (s p : list A) : bool :=
  list_eqb eqb (firstn (length p) s) p.

Definition endswith {A : Type} (eqb : A -> A -> bool) (s p : list A) : bool :=
  list_eqb eqb (skipn (length s - length p) s) p.

(** [str(n)] for a length. *)
Definition str_of_nat (n : nat) : str :=
  lit (NilZero.string_of_uint (Nat.to_uint n)).

(** ** JSON values *)

Inductive json : Type :=
| JNull
| JBool (b : bool)
| JNum (n : Z)
| JStr (s : str)
| JList (l : list json)
| JObj (kv : list (str * json)).

Definition dict := list (str * json).

Fixpoint dict_get (k : str) (d : dict) : option json :=
  match d with
  | [] => None
  | (k', v) :: d' => if str_eqb k k' then Some v else dict_get k d'
  end.

(** [d[k] = v]: an existing key keeps its place, a new one goes last. *)
Fixpoint dict_set (k : str) (v : json) (d : dict) : dict :=
  match d with
  | [] => [(k, v)]
  | (k', v') :: d' =>
      if str_eqb k k' then (k', v) :: d' else (k', v') :: dict_set k v d'
  end.

(** Truth value of a Python object, as [if x] tests it. *)
Definition truthy (v : json) : bool :=
  match v with
  | JNull => false
  | JBool b => b
  | JNum n => negb (n =? 0)%Z
  | JStr s => match s with [] => false | _ => true end
  | JList l => match l with [] => false | _ => true end
  | JObj kv => match kv with [] => false | _ => true end
  end.

(** [v != 0]: only the number 0 and [False] compare equal to 0. *)
Definition ne_zero (v : json) : bool :=
  match v with
  | JNum n => negb (n =? 0)%Z
  | JBool b => b
  | _ => true
  end.

(** ** Exceptions and results *)

Inductive exn : Type :=
| HTTPError (status : Z)          (* raise_for_status *)
| TransportError                  (* raised inside the HTTP library *)
| JSONDecodeError                 (* r.json() / json.loads *)
| UnicodeDecodeError
| KeyError (k : str)
| TypeError
| AttributeError
| ValueError (msg : str)
| WenxinFailed (error_code error_msg : json) (with_input : bool).
(** [WenxinFailed c m _] is [Exception(msg)] where [msg] is the f-string
    [call wenxin failed, error_code: {c}, error_msg: {m}]; the two
    interpolated values stand for the rendered text.  The flag is set for
    the embedding call, whose message goes on with [, input {input}]. *)

Inductive result (A : Type) : Type :=
| Ok (a : A)
| Raise (e : exn).
Arguments Raise {A} e.

(** ** The HTTP transport *)

Inductive method := GET | POST.

Record Request := {
  meth : method;
  url : str;
  params : dict;            (* query string *)
  body : option json;       (* json= *)
  timeout : option Z;
  stream : bool
}.

(** What the client reads from a response: the status, the Content-Type
    header when present, the value of [r.json()] ([None] when it raises) and
    the chunks that iterating [r.content] delivers. *)
Record Response := {
  status : Z;
  content_type : option str;
  json_body : option json;
  content : list bytes
}.

Inductive reply :=
| Reply (r : Response)
| Unreachable.

Definition network := Request -> reply.

(** [requests.Response.raise_for_status] raises for 4xx and 5xx. *)
Definition requests_status_error (s : Z) : bool :=
  ((400 <=? s) && (s <? 600))%Z.

(** [aiohttp.ClientResponse.raise_for_status] raises from 400 on. *)
Definition aiohttp_status_error (s : Z) : bool :=
  (400 <=? s)%Z.

(** ** The client object and its methods as computations *)

Record WenxinClient := {
  baidu_api_key : str;
  baidu_secret_key : str;
  request_timeout : option Z;
  access_token : json;
  access_token_expires : Z
}.

Record World := {
  self : WenxinClient;
  sent : list Request       (* every request issued so far, oldest first *)
}.

Definition M (A : Type) : Type := World -> result A * World.

Definition ret {A : Type} (a : A) : M A := fun w => (Ok a, w).

Definition raise {A : Type} (e : exn) : M A := fun w => (Raise e, w).

Definition bind {A B : Type} (c : M A) (k : A -> M B) : M B :=
  fun w =>
    match c w with
    | (Ok a, w') => k a w'
    | (Raise e, w') => (Raise e, w')
    end.

Notation "x <- c ;; k" := (bind c (fun x => k))
  (at level 61, c at next level, right associativity).
Notation "c ;;; k" := (bind c (fun _ => k))
  (at level 61, right associativity).

Definition lift {A : Type} (r : result A) : M A := fun w => (r, w).

Definition get_self : M WenxinClient := fun w => (Ok (self w), w).

(** [self.access_token = v] and [self.access_token_expires = t] *)
Definition with_access_token (c : WenxinClient) (v : json) : WenxinClient :=
  {| baidu_api_key := baidu_api_key c;
     baidu_secret_key := baidu_secret_key c;
     request_timeout := request_timeout c;
     access_token := v;
     access_token_expires := access_token_expires c |}.

Definition with_access_token_expires (c : WenxinClient) (t : Z) : WenxinClient :=
  {| baidu_api_key := baidu_api_key c;
     baidu_secret_key := baidu_secret_key c;
     request_timeout := request_timeout c;
     access_token := access_token c;
     access_token_expires := t |}.

Definition set_access_token (v : json) : M unit :=
  fun w => (Ok tt, {| self := with_access_token (self w) v; sent := sent w |}).

Definition set_access_token_expires (t : Z) : M unit :=
  fun w => (Ok tt, {| self := with_access_token_expires (self w) t; sent := sent w |}).

(** The world after one more request. *)
Definition logged (w : World) (rq : Request) : World :=
  {| self := self w; sent := sent w ++ [rq] |}.

(** Issue one request: it is logged whether or not the library raises. *)
Definition http (net : network) (rq : Request) : M Response :=
  fun w =>
    match net rq with
    | Reply r => (Ok r, logged w rq)
    | Unreachable => (Raise TransportError, logged w rq)
    end.

Definition raise_for_status (is_error : Z -> bool) (r : Response) : M unit :=
  if is_error (status r) then raise (HTTPError (status r)) else ret tt.

(** [r.json()] *)
Definition r_json (r : Response) : M json :=
  match json_body r with
  | Some v => ret v
  | None => raise JSONDecodeError
  end.

(** [response[k]] for a string key. *)
Definition getitem (response : json) (k : str) : result json :=
  match response with
  | JObj d => match dict_get k d with
              | Some v => Ok v
              | None => Raise (KeyError k)
              end
  | _ => Raise TypeError
  end.

(** [response.get(k, default)] *)
Definition get_default (response : json) (k : str) (default : json) : result json :=
  match response with
  | JObj d => match dict_get k d with
              | Some v => Ok v
              | None => Ok default
              end
  | _ => Raise AttributeError
  end.

(** [n + v] for an int [n]. *)
Definition int_add (n : Z) (v : json) : result Z :=
  match v with
  | JNum e => Ok (n + e)%Z
  | JBool b => Ok (n + (if b then 1 else 0))%Z
  | _ => Raise TypeError
  end.

(** [__init__] *)
Definition init (api_key secret_key : str) (request_timeout : option Z) : WenxinClient :=
  {| baidu_api_key := api_key;
     baidu_secret_key := secret_key;
     request_timeout := request_timeout;
     access_token := JStr [];
     access_token_expires := 0 |}.

Definition WENXIN_TOKEN_URL : str :=
  lit "https://aip.baidubce.com/oauth/2.0/token".

(** [WENXIN_CHAT_URL.format(endpoint=endpoint)] *)
Definition WENXIN_CHAT_URL (endpoint : str) : str :=
  lit "https://aip.baidubce.com/rpc/2.0/ai_custom/v1/wenxinworkshop/chat/" ++ endpoint.

(** [WENXIN_EMBEDDINGS_URL.format(model=model)] *)
Definition WENXIN_EMBEDDINGS_URL (model : str) : str :=
  lit "https://aip.baidubce.com/rpc/2.0/ai_custom/v1/wenxinworkshop/embeddings/" ++ model.

(** [model in [a, b]] *)
Definition str_in (s : str) (l : list str) : bool :=
  existsb (str_eqb s) l.

Definition completions_url (model : str) : str :=
  let endpoint :=
    if str_in model [lit "eb-instant"; lit "ernie-bot-turbo"] then lit "eb-instant"
    else if str_in model [lit "wenxin"; lit "ernie-bot"] then lit "completions"
    else model in
  WENXIN_CHAT_URL endpoint.

(** The credential request of [grant_token] and [async_grant_token]. *)
Definition grant_request (c : WenxinClient) : Request :=
  {| meth := GET;
     url := WENXIN_TOKEN_URL;
     params := [(lit "grant_type", JStr (lit "client_credentials"));
                (lit "client_id", JStr (baidu_api_key c));
                (lit "client_secret", JStr (baidu_secret_key c))];
     body := None;
     timeout := Some 5%Z;
     stream := false |}.

(** The cached token is served when it is truthy and not yet expired. *)
Definition token_valid (c : WenxinClient) (now : Z) : bool :=
  truthy (access_token c) && (now <? access_token_expires c)%Z.

(** The body shared by [grant_token] (with [requests]) and
    [async_grant_token] (with [aiohttp]); the two differ in the library's
    status check only. *)
Definition grant_with (is_error : Z -> bool) (net : network) (now_timestamp : Z) : M json :=
  c <- get_self ;;
  if token_valid c now_timestamp then ret (access_token c)
  else
    r <- http net (grant_request c) ;;
    raise_for_status is_error r ;;;
    response <- r_json r ;;
    tok <- lift (getitem response (lit "access_token")) ;;
    set_access_token tok ;;;
    e <- lift (getitem response (lit "expires_in")) ;;
    t <- lift (int_add now_timestamp e) ;;
    set_access_token_expires t ;;;
    c' <- get_self ;;
    ret (access_token c').

Definition grant_token : network -> Z -> M json :=
  grant_with requests_status_error.

Definition async_grant_token : network -> Z -> M json :=
  grant_with aiohttp_status_error.

(** The get-token operation in either mode, and the status check of the
    library that mode uses. *)
Definition get_token (blocking : bool) : network -> Z -> M json :=
  if blocking then grant_token else async_grant_token.

Definition status_error (blocking : bool) : Z -> bool :=
  if blocking then requests_status_error else aiohttp_status_error.

(** ** Messages *)

Definition message (role content : str) : json :=
  JObj [(lit "role", JStr role); (lit "content", JStr content)].

(** The loop of [construct_message]: two appends for every pair. *)
Fixpoint append_history (messages : list json) (history : list (str * str)) : list json :=
  match history with
  | [] => messages
  | (human, ai) :: rest =>
      append_history
        ((messages ++ [message (lit "user") human]) ++ [message (lit "assistant") ai])
        rest
  end.

Definition construct_message (prompt : str) (history : list (str * str)) : list json :=
  append_history [] history ++ [message (lit "user") prompt].

(** The two messages one pair of the history stands for. *)
Definition pair_messages (p : str * str) : list json :=
  [message (lit "user") (fst p); message (lit "assistant") (snd p)].

(** ** The response envelope *)

(** Lines 116-122 of the source, which every operation repeats after
    [r.json()]: a provider failure when [error_code], read with default 0,
    differs from 0. *)
Definition check_envelope (with_input : bool) (response : json) : result json :=
  match get_default response (lit "error_code") (JNum 0) with
  | Raise e => Raise e
  | Ok error_code =>
      if ne_zero error_code then
        match get_default response (lit "error_msg") (JStr (lit "Unknown error")) with
        | Raise e => Raise e
        | Ok error_msg => Raise (WenxinFailed error_code error_msg with_input)
        end
      else Ok response
  end.

(** [response = r.json()] followed by the envelope check. *)
Definition read_envelope (with_input : bool) (r : Response) : result json :=
  match json_body r with
  | None => Raise JSONDecodeError
  | Some response => check_envelope with_input response
  end.

(** ** Completion calls *)

(** [params["messages"] = ...; params["stream"] = ...] on the keyword
    arguments of the caller. *)
Definition completion_params (prompt : str) (history : list (str * str))
    (streaming : bool) (params : dict) : dict :=
  dict_set (lit "stream") (JBool streaming)
    (dict_set (lit "messages") (JList (construct_message prompt history)) params).

Definition completion_request (c : WenxinClient) (model : str) (token : json)
    (payload : dict) (stream_kw : bool) : Request :=
  {| meth := POST;
     url := completions_url model;
     params := [(lit "access_token", token)];
     body := Some (JObj payload);
     timeout := request_timeout c;
     stream := stream_kw |}.

Definition completion (net : network) (now : Z) (model prompt : str)
    (history : list (str * str)) (params : dict) : M json :=
  let params := completion_params prompt history false params in
  token <- grant_token net now ;;
  c <- get_self ;;
  r <- http net (completion_request c model token params false) ;;
  raise_for_status requests_status_error r ;;;
  lift (read_envelope false r).

Definition acompletion (net : network) (now : Z) (model prompt : str)
    (history : list (str * str)) (params : dict) : M json :=
  let params := completion_params prompt history false params in
  token <- async_grant_token net now ;;
  c <- get_self ;;
  r <- http net (completion_request c model token params false) ;;
  raise_for_status aiohttp_status_error r ;;;
  lift (read_envelope false r).

(** The non-streaming completion in either mode. *)
Definition complete (blocking : bool) :
    network -> Z -> str -> str -> list (str * str) -> dict -> M json :=
  if blocking then completion else acompletion.

(** ** Embeddings *)

Definition batch_size_limit : nat := 16.
Definition chars_limit : nat := 384.

Definition truncate_is (truncate : option str) (mode : str) : bool :=
  match truncate with
  | Some s => str_eqb s mode
  | None => false
  end.

(** The loop over [texts] of [embed], with [sentences] as accumulator. *)
Fixpoint embed_sentences (truncate : option str) (sentences : list str)
    (texts : list str) : result (list str) :=
  match texts with
  | [] => Ok sentences
  | t :: rest =>
      if truncate_is truncate (lit "START") then
        embed_sentences truncate (sentences ++ [last_chars chars_limit t]) rest
      else if truncate_is truncate (lit "END") then
        embed_sentences truncate (sentences ++ [first_chars chars_limit t]) rest
      else if (chars_limit <? length t)%nat then
        Raise (ValueError (lit "input text length " ++ str_of_nat (length t)
                             ++ lit " is greater than 384."))
      else embed_sentences truncate (sentences ++ [t]) rest
  end.

Definition embed_payload (sentences : list str) : json :=
  JObj [(lit "input", JList (map JStr sentences))].

Definition embed_request (c : WenxinClient) (model : str) (token : json)
    (payload : json) : Request :=
  {| meth := POST;
     url := WENXIN_EMBEDDINGS_URL model;
     params := [(lit "access_token", token)];
     body := Some payload;
     timeout := request_timeout c;
     stream := false |}.

(** Lines 273-287 of [embed]: the request for a payload and the reading of
    its response. *)
Definition embed_post (net : network) (now : Z) (model : str) (payload : json) : M json :=
  token <- grant_token net now ;;
  c <- get_self ;;
  r <- http net (embed_request c model token payload) ;;
  raise_for_status requests_status_error r ;;;
  lift (read_envelope true r).

Definition embed (net : network) (now : Z) (model : str) (texts : list str)
    (truncate : option str) : M json :=
  if (batch_size_limit <? length texts)%nat then
    raise (ValueError (lit "texts batch_size must less than 16."))
  else
    sentences <- lift (embed_sentences truncate [] texts) ;;
    embed_post net now model (embed_payload sentences).

(** ** Streaming *)

(** A generator run to its end: what it yielded, in order, and how it
    stopped ([Ok (Some v)] for [return v], [Ok None] for falling off the end,
    [Raise e] for an exception that escaped). *)
Record Generated := {
  yielded : list json;
  finished : result (option json)
}.

(** [r.headers.get("Content-Type", "").startswith("text/event-stream")] *)
Definition is_event_stream (r : Response) : bool :=
  startswith N.eqb
    (match content_type r with Some s => s | None => [] end)
    (lit "text/event-stream").

Definition terminators : list bytes :=
  [ [x0d; x0d]; [x0a; x0a]; [x0d; x0a; x0d; x0a] ].

(** [data.endswith((b"\r\r", b"\n\n", b"\r\n\r\n"))] *)
Definition ends_frame (data : bytes) : bool :=
  existsb (endswith Byte.eqb data) terminators.

(** The inner generator [read] of [acompletion_stream]; [data] is its
    buffer. *)
Fixpoint read_from (data : bytes) (chunks : list bytes) : list bytes :=
  match chunks with
  | [] => match data with [] => [] | _ => [data] end
  | chunk :: rest =>
      let data := data ++ chunk in
      if ends_frame data then data :: read_from [] rest
      else read_from data rest
  end.

Definition read (chunks : list bytes) : list bytes := read_from [] chunks.

(** [bytes.decode("utf-8")], strict: well-formed sequences only. *)
Definition continuation (b : N) : bool := ((0x80 <=? b) && (b <=? 0xBF))%N.

Fixpoint utf8 (bs : list N) : option str :=
  match bs with
  | [] => Some []
  | b0 :: t0 =>
      if (b0 <? 0x80)%N then option_map (cons b0) (utf8 t0)
      else if ((0xC2 <=? b0) && (b0 <=? 0xDF))%N then
        match t0 with
        | b1 :: t1 =>
            if continuation b1
            then option_map (cons ((b0 - 0xC0) * 64 + (b1 - 0x80))%N) (utf8 t1)
            else None
        | _ => None
        end
      else if ((0xE0 <=? b0) && (b0 <=? 0xEF))%N then
        match t0 with
        | b1 :: b2 :: t2 =>
            if ((if b0 =? 0xE0 then 0xA0 else 0x80) <=? b1)%N
               && (b1 <=? (if b0 =? 0xED then 0x9F else 0xBF))%N
               && continuation b2
            then option_map
                   (cons (((b0 - 0xE0) * 64 + (b1 - 0x80)) * 64 + (b2 - 0x80))%N)
                   (utf8 t2)
            else None
        | _ => None
        end
      else if ((0xF0 <=? b0) && (b0 <=? 0xF4))%N then
        match t0 with
        | b1 :: b2 :: b3 :: t3 =>
            if ((if b0 =? 0xF0 then 0x90 else 0x80) <=? b1)%N
               && (b1 <=? (if b0 =? 0xF4 then 0x8F else 0xBF))%N
               && continuation b2 && continuation b3
            then option_map
                   (cons ((((b0 - 0xF0) * 64 + (b1 - 0x80)) * 64 + (b2 - 0x80)) * 64
                          + (b3 - 0x80))%N)
                   (utf8 t3)
            else None
        | _ => None
        end
      else None
  end.

Definition decode (line : bytes) : result str :=
  match utf8 (map Byte.to_N line) with
  | Some s => Ok s
  | None => Raise UnicodeDecodeError
  end.

(** [str.isspace] on one character, the set that [str.strip()] removes. *)
Definition isspace (c : codepoint) : bool :=
  (((0x09 <=? c) && (c <=? 0x0D)) || ((0x1C <=? c) && (c <=? 0x20))
   || (c =? 0x85) || (c =? 0xA0) || (c =? 0x1680)
   || ((0x2000 <=? c) && (c <=? 0x200A))
   || (c =? 0x2028) || (c =? 0x2029) || (c =? 0x202F) || (c =? 0x205F)
   || (c =? 0x3000))%N.

Fixpoint lstrip (s : str) : str :=
  match s with
  | c :: s' => if isspace c then lstrip s' else s
  | [] => []
  end.

Definition strip (s : str) : str := rev (lstrip (rev (lstrip s))).

Section Streaming.

(** [json.loads] on a [str]: [None] when it raises. *)
Variable json_loads : str -> option json.

(** [sseclient.SSEClient(r).events()]: the [data] field of each event the
    library decodes from the body of [r]. *)
Variable sse_events : Response -> list str.

(** [for event in client.events(): yield json.loads(event.data)] *)
Fixpoint yield_events (datas : list str) : Generated :=
  match datas with
  | [] => {| yielded := []; finished := Ok None |}
  | d :: rest =>
      match json_loads d with
      | None => {| yielded := []; finished := Raise JSONDecodeError |}
      | Some data =>
          let g := yield_events rest in
          {| yielded := data :: yielded g; finished := finished g |}
      end
  end.

(** The consuming loop of [acompletion_stream] over the frames of [read]. *)
Fixpoint yield_frames (frames : list bytes) : Generated :=
  match frames with
  | [] => {| yielded := []; finished := Ok None |}
  | line :: rest =>
      match decode line with
      | Raise e => {| yielded := []; finished := Raise e |}
      | Ok line_decoded =>
          if negb (startswith N.eqb line_decoded (lit "data:")) then yield_frames rest
          else
            let event_data := strip (skipn 5 line_decoded) in
            match json_loads event_data with
            | None => {| yielded := []; finished := Raise JSONDecodeError |}
            | Some data =>
                let g := yield_frames rest in
                {| yielded := data :: yielded g; finished := finished g |}
            end
      end
  end.

(** The body of [completion_stream] once the response is in hand
    (lines 185-197): [return response] ends a generator without yielding. *)
Definition completion_stream_body (r : Response) : Generated :=
  if negb (is_event_stream r) then
    match read_envelope false r with
    | Raise e => {| yielded := []; finished := Raise e |}
    | Ok response => {| yielded := []; finished := Ok (Some response) |}
    end
  else yield_events (sse_events r).

(** The body of [acompletion_stream] once the response is in hand
    (lines 224-249): after [yield response] control goes on to the loop
    over [read(r.content)]. *)
Definition acompletion_stream_body (r : Response) : Generated :=
  if negb (is_event_stream r) then
    match read_envelope false r with
    | Raise e => {| yielded := []; finished := Raise e |}
    | Ok response =>
        let g := yield_frames (read (content r)) in
        {| yielded := response :: yielded g; finished := finished g |}
    end
  else yield_frames (read (content r)).

(** What the two generators do up to the response: [stream_kw] is the
    [stream=True] argument that only [requests.post] is given. *)
Definition stream_with (grant : network -> Z -> M json) (is_error : Z -> bool)
    (stream_kw : bool) (body_of : Response -> Generated)
    (net : network) (now : Z) (model prompt : str)
    (history : list (str * str)) (params : dict) : World -> Generated * World :=
  fun w =>
    let params := completion_params prompt history true params in
    match (token <- grant net now ;;
           c <- get_self ;;
           r <- http net (completion_request c model token params stream_kw) ;;
           raise_for_status is_error r ;;;
           ret r) w with
    | (Raise e, w') => ({| yielded := []; finished := Raise e |}, w')
    | (Ok r, w') => (body_of r, w')
    end.

Definition completion_stream :=
  stream_with grant_token requests_status_error true completion_stream_body.

Definition acompletion_stream :=
  stream_with async_grant_token aiohttp_status_error false acompletion_stream_body.

End Streaming.

(** ** A JSON reader for the examples

    [json_loads] stays a parameter of the streaming code.  To run the
    generators on concrete bytes the examples use this reader of a fragment
    of JSON: objects, arrays, strings without escapes, integers and the three
    literals.  On a repeated key the last value wins, as in [json.loads]. *)

Definition is_ws (c : codepoint) : bool :=
  ((c =? 32) || (c =? 9) || (c =? 10) || (c =? 13))%N.

Fixpoint skip_ws (s : str) : str :=
  match s with
  | c :: s' => if is_ws c then skip_ws s' else s
  | [] => []
  end.

Definition is_digit (c : codepoint) : bool := ((48 <=? c) && (c <=? 57))%N.

Fixpoint read_digits (acc : Z) (s : str) : Z * str :=
  match s with
  | c :: s' =>
      if is_digit c then read_digits (acc * 10 + Z.of_N (c - 48)) s' else (acc, s)
  | [] => (acc, [])
  end.

(** No fraction or exponent may follow: those are floats. *)
Definition ends_integer (s : str) : bool :=
  match s with
  | c :: _ => negb (is_digit c || (c =? 46) || (c =? 101) || (c =? 69))%N
  | [] => true
  end.

Definition read_unsigned (s : str) : option (Z * str) :=
  match s with
  | c :: s' =>
      if (c =? 48)%N then (if ends_integer s' then Some (0%Z, s') else None)
      else if is_digit c then
        let (n, rest) := read_digits 0 s in
        if ends_integer rest then Some (n, rest) else None
      else None
  | [] => None
  end.

Definition read_integer (s : str) : option (Z * str) :=
  match s with
  | c :: s' =>
      if (c =? 45)%N then
        match read_unsigned s' with
        | Some (n, rest) => Some ((- n)%Z, rest)
        | None => None
        end
      else read_unsigned s
  | [] => None
  end.

(** The characters of a string up to its closing quote. *)
Fixpoint read_string (s : str) : option (str * str) :=
  match s with
  | [] => None
  | c :: s' =>
      if (c =? 34)%N then Some ([], s')
      else if ((c =? 92) || (c <? 32))%N then None
      else match read_string s' with
           | Some (x, rest) => Some (c :: x, rest)
           | None => None
           end
  end.

Definition read_literal (s : str) : option (json * str) :=
  if startswith N.eqb s (lit "true") then Some (JBool true, skipn 4 s)
  else if startswith N.eqb s (lit "false") then Some (JBool false, skipn 5 s)
  else if startswith N.eqb s (lit "null") then Some (JNull, skipn 4 s)
  else match read_integer s with
       | Some (n, rest) => Some (JNum n, rest)
       | None => None
       end.

Fixpoint read_value (fuel : nat) (s : str) : option (json * str) :=
  match fuel with
  | O => None
  | S fuel' =>
      match skip_ws s with
      | [] => None
      | c :: r =>
          if (c =? 123)%N then
            match skip_ws r with
            | c' :: r' =>
                if (c' =? 125)%N then Some (JObj [], r')
                else read_members fuel' [] r
            | [] => None
            end
          else if (c =? 91)%N then
            match skip_ws r with
            | c' :: r' =>
                if (c' =? 93)%N then Some (JList [], r')
                else read_elements fuel' [] r
            | [] => None
            end
          else if (c =? 34)%N then
            match read_string r with
            | Some (x, rest) => Some (JStr x, rest)
            | None => None
            end
          else read_literal (c :: r)
      end
  end
with read_members (fuel : nat) (acc : dict) (s : str) : option (json * str) :=
  match fuel with
  | O => None
  | S fuel' =>
      match skip_ws s with
      | c :: r =>
          if (c =? 34)%N then
            match read_string r with
            | Some (k, r1) =>
                match skip_ws r1 with
                | c1 :: r2 =>
                    if (c1 =? 58)%N then
                      match read_value fuel' r2 with
                      | Some (v, r3) =>
                          match skip_ws r3 with
                          | c3 :: r4 =>
                              if (c3 =? 44)%N then read_members fuel' (dict_set k v acc) r4
                              else if (c3 =? 125)%N then Some (JObj (dict_set k v acc), r4)
                              else None
                          | [] => None
                          end
                      | None => None
                      end
                    else None
                | [] => None
                end
            | None => None
            end
          else None
      | [] => None
      end
  end
with read_elements (fuel : nat) (acc : list json) (s : str) : option (json * str) :=
  match fuel with
  | O => None
  | S fuel' =>
      match read_value fuel' s with
      | Some (v, r) =>
          match skip_ws r with
          | c :: r' =>
              if (c =? 44)%N then read_elements fuel' (acc ++ [v]) r'
              else if (c =? 93)%N then Some (JList (acc ++ [v]), r')
              else None
          | [] => None
          end
      | None => None
      end
  end.

Definition loads (s : str) : option json :=
  match read_value (2 * length s + 2) s with
  | Some (v, rest) => match skip_ws rest with [] => Some v | _ => None end
  | None => None
  end.

(** A double quote, for the literals of the examples. *)
Definition dq : string := String (ascii_of_nat 34) EmptyString.
Definition lf : string := String (ascii_of_nat 10) EmptyString.

(** The failures of the input validation in [embed]. *)
Definition is_validation_error (res : result json) : bool :=
  match res with
  | Raise (ValueError _) => true
  | _ => false
  end.

(** ** The envelope rule

    What the claims about the error envelope say of the outcome [res] of a
    call that decoded the object [d]: a provider failure exactly when
    [error_code] is present and differs from 0, carrying that code and the
    [error_msg] of the envelope (or the default text), and the envelope
    itself otherwise. *)
Definition envelope_rule (with_input : bool) (d : dict) (res : result json) : Prop :=
  ((exists code msg, res = Raise (WenxinFailed code msg with_input))
   <-> (exists code, dict_get (lit "error_code") d = Some code /\ ne_zero code = true))
  /\ (forall code msg,
        res = Raise (WenxinFailed code msg with_input) ->
        dict_get (lit "error_code") d = Some code
        /\ msg = match dict_get (lit "error_msg") d with
                 | Some m => m
                 | None => JStr (lit "Unknown error")
                 end)
  /\ ((forall code, dict_get (lit "error_code") d = Some code -> ne_zero code = false) ->
      res = Ok (JObj d)).

(** ** Worlds and transports for the examples *)

Definition json_response (code : Z) (v : json) : Response :=
  {| status := code;
     content_type := Some (lit "application/json");
     json_body := Some v;
     content := [] |}.

Definition json_reply (code : Z) (v : json) : reply := Reply (json_response code v).

Definition quota_envelope : dict :=
  [(lit "error_code", JNum 17); (lit "error_msg", JStr (lit "quota"))].

(** A transport that answers the credential request with [granted] and
    every POST with [answered]. *)
Definition serve (granted answered : reply) : network :=
  fun rq => match meth rq with GET => granted | POST => answered end.

Definition fresh_world : World :=
  {| self := init (lit "key") (lit "secret") (Some 30%Z); sent := [] |}.

(** A client holding the token "old" that ran out at time 50. *)
Definition stale_world : World :=
  {| self := with_access_token_expires
               (with_access_token (self fresh_world) (JStr (lit "old"))) 50;
     sent := [] |}.

(** A client holding the token "tok", good until time 5000. *)
Definition ready_world : World :=
  {| self := with_access_token_expires
               (with_access_token (self fresh_world) (JStr (lit "tok"))) 5000;
     sent := [] |}.

(** The frame [b"data: {\"a\":1}\n\n"] of the reframing example, the text
    of its JSON payload and the object it stands for. *)
Definition event_text : string := "{" ++ dq ++ "a" ++ dq ++ ":1}".

Definition event_bytes : bytes := blit ("data: " ++ event_text ++ lf ++ lf).

Definition event_object : json := JObj [(lit "a", JNum 1)].

(** An envelope without error, as the streaming endpoint answers when it
    does not stream. *)
Definition plain_envelope : dict :=
  [(lit "error_code", JNum 0); (lit "result", JStr (lit "hi"))].

(** ** Notions for the further properties *)

(** Two client states with the same credentials and timeout. *)
Definition same_config (c c' : WenxinClient) : Prop :=
  baidu_api_key c' = baidu_api_key c
  /\ baidu_secret_key c' = baidu_secret_key c
  /\ request_timeout c' = request_timeout c.

(** How a streaming loop may stop: at the end of the body, or on a frame
    that does not decode. *)
Definition stops_on_decoding (fin : result (option json)) : Prop :=
  fin = Ok None \/ fin = Raise JSONDecodeError \/ fin = Raise UnicodeDecodeError.

(* ================================================================== *)
(** * Part II: properties *)
(* ================================================================== *)

(** ** Equality tests *)

Lemma list_eqb_eq {A : Type} (eqb : A -> A -> bool) :
  (forall x y, eqb x y = true <-> x = y) ->
  forall a b, list_eqb eqb a b = true <-> a = b.
Proof.
  intros Heq a; induction a as [|x a IH]; intros [|y b]; simpl;
    try (split; [discriminate | congruence]); try tauto.
  rewrite andb_true_iff, Heq, IH. split.
  - intros [-> ->]; reflexivity.
  - intros E; inversion E; auto.
Qed.

Lemma str_eqb_eq (a b : str) : str_eqb a b = true <-> a = b.
Proof. apply list_eqb_eq, N.eqb_eq. Qed.

Lemma str_eqb_refl (a : str) : str_eqb a a = true.
Proof. apply str_eqb_eq; reflexivity. Qed.

Lemma str_eqb_neq (a b : str) : a <> b -> str_eqb a b = false.
Proof.
  intros H; destruct (str_eqb a b) eqn:E; [|reflexivity].
  apply str_eqb_eq in E; contradiction.
Qed.

(** ** Endpoint resolution *)

(** C9. [completions_url] is a total function of the model name alone:
    the aliases "eb-instant" and "ernie-bot-turbo" resolve to the segment
    "eb-instant", "wenxin" and "ernie-bot" to "completions", and every other
    name is itself the segment appended to the chat URL; every name gets a
    URL. *)
Theorem completions_url_resolves (model : str) :
  completions_url (lit "eb-instant") = WENXIN_CHAT_URL (lit "eb-instant")
  /\ completions_url (lit "ernie-bot-turbo") = WENXIN_CHAT_URL (lit "eb-instant")
  /\ completions_url (lit "wenxin") = WENXIN_CHAT_URL (lit "completions")
  /\ completions_url (lit "ernie-bot") = WENXIN_CHAT_URL (lit "completions")
  /\ (~ In model [lit "eb-instant"; lit "ernie-bot-turbo"; lit "wenxin"; lit "ernie-bot"] ->
      completions_url model
      = lit "https://aip.baidubce.com/rpc/2.0/ai_custom/v1/wenxinworkshop/chat/" ++ model)
  /\ (exists endpoint,
        completions_url model
        = lit "https://aip.baidubce.com/rpc/2.0/ai_custom/v1/wenxinworkshop/chat/" ++ endpoint).
Proof.
  repeat split; try reflexivity.
  - intros Hnot. unfold completions_url, str_in. simpl existsb.
    rewrite !str_eqb_neq by (intros ->; apply Hnot; simpl; tauto).
    reflexivity.
  - unfold completions_url, WENXIN_CHAT_URL. eexists; reflexivity.
Qed.

(** A name the client does not know goes into the URL as it is. *)
Lemma completions_url_resolves_witness :
  completions_url (lit "ernie-speed")
  = lit "https://aip.baidubce.com/rpc/2.0/ai_custom/v1/wenxinworkshop/chat/ernie-speed".
Proof.
  destruct (completions_url_resolves (lit "ernie-speed")) as (_ & _ & _ & _ & H & _).
  apply H. simpl. intuition discriminate.
Defined.

(** ** Message construction *)

Lemma append_history_flat (history : list (str * str)) :
  forall messages,
    append_history messages history = messages ++ flat_map pair_messages history.
Proof.
  induction history as [|[human ai] rest IH]; intros messages; simpl.
  - now rewrite app_nil_r.
  - rewrite IH, <- !app_assoc. reflexivity.
Qed.

Lemma flat_map_pair_length (history : list (str * str)) :
  length (flat_map pair_messages history) = 2 * length history.
Proof. induction history as [|p rest IH]; simpl; [reflexivity | lia]. Qed.

Lemma flat_map_pair_nth (history : list (str * str)) :
  forall i human ai,
    nth_error history i = Some (human, ai) ->
    nth_error (flat_map pair_messages history) (2 * i)
    = Some (message (lit "user") human)
    /\ nth_error (flat_map pair_messages history) (2 * i + 1)
       = Some (message (lit "assistant") ai).
Proof.
  induction history as [|p rest IH]; intros [|i] human ai H; simpl in H;
    try discriminate.
  - inversion H; subst. split; reflexivity.
  - replace (2 * S i) with (S (S (2 * i))) by lia.
    replace (S (S (2 * i)) + 1) with (S (S (2 * i + 1))) by lia.
    simpl. apply IH, H.
Qed.

(** C5. For a history of n pairs and a prompt p, [construct_message] returns
    2n+1 messages: position 2i holds the object with role "user" and, as
    content, the i-th human text, position 2i+1 the object with role
    "assistant" and the i-th ai text, and the last position the object with
    role "user" and content p.  The result is a function of the two
    arguments only. *)
Theorem construct_message_shape (prompt : str) (history : list (str * str)) :
  length (construct_message prompt history) = 2 * length history + 1
  /\ (forall i human ai,
        nth_error history i = Some (human, ai) ->
        nth_error (construct_message prompt history) (2 * i)
        = Some (JObj [(lit "role", JStr (lit "user")); (lit "content", JStr human)])
        /\ nth_error (construct_message prompt history) (2 * i + 1)
           = Some (JObj [(lit "role", JStr (lit "assistant")); (lit "content", JStr ai)]))
  /\ nth_error (construct_message prompt history) (2 * length history)
     = Some (JObj [(lit "role", JStr (lit "user")); (lit "content", JStr prompt)])
  /\ construct_message prompt history
     = flat_map
         (fun pair =>
            [JObj [(lit "role", JStr (lit "user")); (lit "content", JStr (fst pair))];
             JObj [(lit "role", JStr (lit "assistant")); (lit "content", JStr (snd pair))]])
         history
       ++ [JObj [(lit "role", JStr (lit "user")); (lit "content", JStr prompt)]].
Proof.
  change (fun pair : str * str =>
            [JObj [(lit "role", JStr (lit "user")); (lit "content", JStr (fst pair))];
             JObj [(lit "role", JStr (lit "assistant")); (lit "content", JStr (snd pair))]])
    with pair_messages.
  change (JObj [(lit "role", JStr (lit "user")); (lit "content", JStr prompt)])
    with (message (lit "user") prompt).
  unfold construct_message. rewrite append_history_flat. cbn [app].
  split; [|split; [|split]].
  - rewrite length_app, flat_map_pair_length. simpl. lia.
  - intros i human ai H.
    destruct (flat_map_pair_nth history i H) as [Hu Ha]. split.
    + rewrite nth_error_app1; [exact Hu|].
      apply nth_error_Some. rewrite Hu. discriminate.
    + rewrite nth_error_app1; [exact Ha|].
      apply nth_error_Some. rewrite Ha. discriminate.
  - rewrite nth_error_app2; rewrite flat_map_pair_length; [|lia].
    now rewrite Nat.sub_diag.
  - reflexivity.
Qed.

(** The statement at a history of two exchanges. *)
Lemma construct_message_shape_witness :
  nth_error (construct_message (lit "and now?") [(lit "hi", lit "hello"); (lit "why", lit "because")]) 2
  = Some (JObj [(lit "role", JStr (lit "user")); (lit "content", JStr (lit "why"))])
  /\ nth_error (construct_message (lit "and now?") [(lit "hi", lit "hello"); (lit "why", lit "because")]) 3
     = Some (JObj [(lit "role", JStr (lit "assistant"));
                   (lit "content", JStr (lit "because"))]).
Proof.
  destruct (construct_message_shape (lit "and now?")
              [(lit "hi", lit "hello"); (lit "why", lit "because")])
    as (_ & Hnth & _).
  exact (Hnth 1 (lit "why") (lit "because") eq_refl).
Defined.

(** ** The token cache *)

Ltac run_grant :=
  unfold grant_with, bind, get_self, http, raise_for_status, r_json, lift,
    set_access_token, set_access_token_expires, ret, raise.

Section Grant.

Variable is_error : Z -> bool.
Variable net : network.
Variable now : Z.
Variable w : World.

Let rq := grant_request (self w).

Lemma grant_cached :
  token_valid (self w) now = true ->
  grant_with is_error net now w = (Ok (access_token (self w)), w).
Proof. intros H. run_grant. now rewrite H. Qed.

Lemma grant_unreachable :
  token_valid (self w) now = false ->
  net rq = Unreachable ->
  grant_with is_error net now w = (Raise TransportError, logged w rq).
Proof. intros H Hn. run_grant. rewrite H. fold rq. now rewrite Hn. Qed.

Lemma grant_refused (r : Response) :
  token_valid (self w) now = false ->
  net rq = Reply r ->
  is_error (status r) = true ->
  grant_with is_error net now w = (Raise (HTTPError (status r)), logged w rq).
Proof. intros H Hn He. run_grant. rewrite H. fold rq. now rewrite Hn, He. Qed.

Lemma grant_unparsed (r : Response) :
  token_valid (self w) now = false ->
  net rq = Reply r ->
  is_error (status r) = false ->
  json_body r = None ->
  grant_with is_error net now w = (Raise JSONDecodeError, logged w rq).
Proof.
  intros H Hn He Hj. run_grant. rewrite H. fold rq. now rewrite Hn, He, Hj.
Qed.

Lemma grant_no_token (r : Response) (response : json) (e : exn) :
  token_valid (self w) now = false ->
  net rq = Reply r ->
  is_error (status r) = false ->
  json_body r = Some response ->
  getitem response (lit "access_token") = Raise e ->
  grant_with is_error net now w = (Raise e, logged w rq).
Proof.
  intros H Hn He Hj Ht. run_grant. rewrite H. fold rq.
  now rewrite Hn, He, Hj, Ht.
Qed.

Lemma grant_no_expiry (r : Response) (response tok : json) (e : exn) :
  token_valid (self w) now = false ->
  net rq = Reply r ->
  is_error (status r) = false ->
  json_body r = Some response ->
  getitem response (lit "access_token") = Ok tok ->
  (getitem response (lit "expires_in") = Raise e
   \/ exists x, getitem response (lit "expires_in") = Ok x
                /\ int_add now x = Raise e) ->
  grant_with is_error net now w
  = (Raise e, {| self := with_access_token (self w) tok; sent := sent w ++ [rq] |}).
Proof.
  intros H Hn He Hj Ht Hx. run_grant. rewrite H. fold rq.
  rewrite Hn, He, Hj, Ht. simpl.
  destruct Hx as [Hx | (x & Hx & Ha)]; rewrite Hx; [reflexivity|].
  now rewrite Ha.
Qed.

Lemma grant_refreshed (r : Response) (response tok x : json) (t : Z) :
  token_valid (self w) now = false ->
  net rq = Reply r ->
  is_error (status r) = false ->
  json_body r = Some response ->
  getitem response (lit "access_token") = Ok tok ->
  getitem response (lit "expires_in") = Ok x ->
  int_add now x = Ok t ->
  grant_with is_error net now w
  = (Ok tok,
     {| self := with_access_token_expires (with_access_token (self w) tok) t;
        sent := sent w ++ [rq] |}).
Proof.
  intros H Hn He Hj Ht Hx Ha. run_grant. rewrite H. fold rq.
  rewrite Hn, He, Hj, Ht. simpl. rewrite Hx, Ha. reflexivity.
Qed.

(** Whatever the transport answers, a grant that is not served from the
    cache logs exactly the credential request. *)
Lemma grant_sends_once :
  token_valid (self w) now = false ->
  sent (snd (grant_with is_error net now w)) = sent w ++ [rq].
Proof.
  intros H. run_grant. rewrite H. fold rq.
  destruct (net rq) as [r|]; [|reflexivity].
  destruct (is_error (status r)); [reflexivity|].
  destruct (json_body r) as [response|]; [|reflexivity].
  destruct (getitem response (lit "access_token")) as [tok|e]; [|reflexivity].
  simpl.
  destruct (getitem response (lit "expires_in")) as [x|e]; [|reflexivity].
  destruct (int_add now x); reflexivity.
Qed.


End Grant.

Lemma success_passes (blocking : bool) (s : Z) :
  (200 <= s < 300)%Z -> status_error blocking s = false.
Proof.
  intros H.
  destruct blocking; unfold status_error, requests_status_error, aiohttp_status_error.
  - apply andb_false_iff; left. apply Z.leb_gt. lia.
  - apply Z.leb_gt. lia.
Qed.

Lemma get_token_grant (blocking : bool) :
  get_token blocking = grant_with (status_error blocking).
Proof. destruct blocking; reflexivity. Qed.



(** C2, as the claim has it, fails: a 2xx credential response that carries
    [access_token] and no [expires_in] makes the grant raise [KeyError]
    after the token value has been stored; the expiry keeps its old value. *)
Lemma grant_token_partial_update :
  fst (grant_token
         (serve (json_reply 200 (JObj [(lit "access_token", JStr (lit "new"))])) Unreachable)
         1000 stale_world)
  = Raise (KeyError (lit "expires_in"))
  /\ access_token (self stale_world) = JStr (lit "old")
  /\ access_token
       (self (snd (grant_token
                     (serve (json_reply 200 (JObj [(lit "access_token", JStr (lit "new"))]))
                        Unreachable)
                     1000 stale_world)))
     = JStr (lit "new")
  /\ access_token_expires
       (self (snd (grant_token
                     (serve (json_reply 200 (JObj [(lit "access_token", JStr (lit "new"))]))
                        Unreachable)
                     1000 stale_world)))
     = access_token_expires (self stale_world).
Proof. repeat split. Qed.

(** The status check is the library's: [requests] lets a 3xx response
    through, and the grant then stores what its body carries. *)
Example redirect_status_refreshes :
  self (snd (grant_token
               (serve (json_reply 300 (JObj [(lit "access_token", JStr (lit "T"));
                                             (lit "expires_in", JNum 3600)])) Unreachable)
               1000 stale_world))
  = with_access_token_expires
      (with_access_token (self stale_world) (JStr (lit "T"))) 4600.
Proof. reflexivity. Qed.

(** C2, amended.  In either mode the grant touches the two cached fields as
    follows.  A call served from the cache changes nothing.  Otherwise: when
    the transport fails, the status check rejects the response (400 and
    above), the body is not JSON or [access_token] cannot be read from it,
    the call raises and both fields keep their values; when [access_token]
    and a numeric [expires_in] are both read, both fields are replaced and
    the call returns; when [access_token] is read and [expires_in] cannot be
    read or added, the call raises with the token value replaced and the
    expiry as it was. *)
Theorem get_token_update (blocking : bool) (net : network) (now : Z) (w : World) :
  (token_valid (self w) now = true ->
   snd (get_token blocking net now w) = w)
  /\ (token_valid (self w) now = false ->
      (net (grant_request (self w)) = Unreachable ->
       self (snd (get_token blocking net now w)) = self w
       /\ fst (get_token blocking net now w) = Raise TransportError)
      /\ (forall r,
            net (grant_request (self w)) = Reply r ->
            (status_error blocking (status r) = true ->
             self (snd (get_token blocking net now w)) = self w
             /\ fst (get_token blocking net now w) = Raise (HTTPError (status r)))
            /\ (status_error blocking (status r) = false ->
                (json_body r = None ->
                 self (snd (get_token blocking net now w)) = self w
                 /\ fst (get_token blocking net now w) = Raise JSONDecodeError)
                /\ (forall response,
                      json_body r = Some response ->
                      (forall e,
                         getitem response (lit "access_token") = Raise e ->
                         self (snd (get_token blocking net now w)) = self w
                         /\ fst (get_token blocking net now w) = Raise e)
                      /\ (forall tok x t,
                            getitem response (lit "access_token") = Ok tok ->
                            getitem response (lit "expires_in") = Ok x ->
                            int_add now x = Ok t ->
                            self (snd (get_token blocking net now w))
                            = with_access_token_expires (with_access_token (self w) tok) t
                            /\ fst (get_token blocking net now w) = Ok tok)
                      /\ (forall tok e,
                            getitem response (lit "access_token") = Ok tok ->
                            (getitem response (lit "expires_in") = Raise e
                             \/ exists x, getitem response (lit "expires_in") = Ok x
                                          /\ int_add now x = Raise e) ->
                            self (snd (get_token blocking net now w))
                            = with_access_token (self w) tok
                            /\ fst (get_token blocking net now w) = Raise e))))).
Proof.
  rewrite !get_token_grant. split; [|split; [|split; [|split; [|split; [|split]]]]].
  - intros H. now rewrite grant_cached.
  - intros Hn. now rewrite grant_unreachable.
  - intros He. now rewrite (grant_refused _ _ _ _ H H0 He).
  - intros Hj. now rewrite (grant_unparsed _ _ _ _ H H0 H1 Hj).
  - intros e Ht. now rewrite (grant_no_token _ _ _ _ H H0 H1 H2 Ht).
  - intros tok x t Ht Hx Ha.
    now rewrite (grant_refreshed _ _ _ _ H H0 H1 H2 Ht Hx Ha).
  - intros tok e Ht Hx.
    now rewrite (grant_no_expiry _ _ _ _ H H0 H1 H2 Ht Hx).
Qed.

(** The stale client refreshed in the non-blocking mode. *)
Lemma get_token_update_witness :
  self (snd (get_token false
               (serve (json_reply 200 (JObj [(lit "access_token", JStr (lit "T"));
                                             (lit "expires_in", JNum 3600)])) Unreachable)
               1000 stale_world))
  = with_access_token_expires
      (with_access_token (self stale_world) (JStr (lit "T"))) 4600.
Proof.
  pose proof (get_token_update false
    (serve (json_reply 200 (JObj [(lit "access_token", JStr (lit "T"));
                                  (lit "expires_in", JNum 3600)])) Unreachable)
    1000 stale_world) as (_ & H).
  destruct (H eq_refl) as (_ & Hr).
  destruct (Hr _ eq_refl) as (_ & Hok).
  destruct (Hok eq_refl) as (_ & Hbody).
  destruct (Hbody _ eq_refl) as (_ & Hboth & _).
  exact (proj1 (Hboth _ _ _ eq_refl eq_refl eq_refl)).
Defined.

(** ** The error envelope *)

Lemma check_envelope_object (with_input : bool) (d : dict) :
  check_envelope with_input (JObj d)
  = match dict_get (lit "error_code") d with
    | Some code =>
        if ne_zero code then
          Raise (WenxinFailed code
                   (match dict_get (lit "error_msg") d with
                    | Some m => m
                    | None => JStr (lit "Unknown error")
                    end) with_input)
        else Ok (JObj d)
    | None => Ok (JObj d)
    end.
Proof.
  unfold check_envelope, get_default.
  destruct (dict_get (lit "error_code") d) as [code|]; [|reflexivity].
  destruct (ne_zero code); [|reflexivity].
  now destruct (dict_get (lit "error_msg") d).
Qed.

Lemma check_envelope_rule (with_input : bool) (d : dict) :
  envelope_rule with_input d (check_envelope with_input (JObj d)).
Proof.
  rewrite check_envelope_object. unfold envelope_rule.
  destruct (dict_get (lit "error_code") d) as [code|] eqn:Hc.
  - destruct (ne_zero code) eqn:Hz.
    + split; [split|split].
      * intros _. now exists code.
      * intros _. eexists; eexists; reflexivity.
      * intros c m H. inversion H; subst. now split.
      * intros H. specialize (H code eq_refl). congruence.
    + split; [split|split].
      * intros (c & m & H); discriminate.
      * intros (c & H & Hn). inversion H; subst. congruence.
      * intros c m H; discriminate.
      * reflexivity.
  - split; [split|split].
    + intros (c & m & H); discriminate.
    + intros (c & H & _); discriminate.
    + intros c m H; discriminate.
    + reflexivity.
Qed.

Lemma completion_answered (blocking : bool) (net : network) (now : Z)
    (model prompt : str) (history : list (str * str)) (params : dict)
    (w w1 : World) (token : json) (r : Response) :
  get_token blocking net now w = (Ok token, w1) ->
  net (completion_request (self w1) model token
         (completion_params prompt history false params) false) = Reply r ->
  status_error blocking (status r) = false ->
  complete blocking net now model prompt history params w
  = (read_envelope false r,
     logged w1 (completion_request (self w1) model token
                  (completion_params prompt history false params) false)).
Proof.
  intros Hg Hn Hs.
  destruct blocking; unfold complete, completion, acompletion, get_token in *;
    unfold bind, get_self, http, raise_for_status, lift, ret, raise;
    rewrite Hg, Hn; unfold status_error in Hs; rewrite Hs; reflexivity.
Qed.

Lemma embed_post_answered (net : network) (now : Z) (model : str) (payload : json)
    (w w1 : World) (token : json) (r : Response) :
  grant_token net now w = (Ok token, w1) ->
  net (embed_request (self w1) model token payload) = Reply r ->
  requests_status_error (status r) = false ->
  embed_post net now model payload w
  = (read_envelope true r, logged w1 (embed_request (self w1) model token payload)).
Proof.
  intros Hg Hn Hs.
  unfold embed_post, bind, get_self, http, raise_for_status, lift, ret, raise.
  now rewrite Hg, Hn, Hs.
Qed.

Lemma embed_within_limit (net : network) (now : Z) (model : str) (texts : list str)
    (truncate : option str) (sentences : list str) (w : World) :
  length texts <= batch_size_limit ->
  embed_sentences truncate [] texts = Ok sentences ->
  embed net now model texts truncate w
  = embed_post net now model (embed_payload sentences) w.
Proof.
  intros Hl Hs. unfold embed.
  destruct (Nat.ltb_spec batch_size_limit (length texts)); [lia|].
  unfold bind at 1, lift. now rewrite Hs.
Qed.

(** C4, as the claim has it, fails: a body that is JSON and not an object
    has no [get]; the call answered [200] with [[1]] neither reports a
    provider failure nor returns the body, it raises [AttributeError]. *)
Lemma non_object_body_raises :
  json_body (json_response 200 (JList [JNum 1])) = Some (JList [JNum 1])
  /\ fst (complete true (serve Unreachable (json_reply 200 (JList [JNum 1])))
            1000 (lit "ernie-bot") (lit "hi") [] [] ready_world)
     = Raise AttributeError.
Proof. split; reflexivity. Qed.

(** C4, amended.  A completion call in either mode, and an embedding call,
    whose request is answered with a 2xx status and a body that decodes to a
    JSON object: the call raises the provider failure if and only if the
    envelope has an [error_code] that differs from 0 (a missing one reads as
    0); the failure carries that code and the envelope's message; in every
    other case the call returns the decoded envelope as it is. *)
Theorem envelope_checked (net : network) (now : Z) (w : World) (r : Response) (d : dict) :
  (200 <= status r < 300)%Z ->
  json_body r = Some (JObj d) ->
  (forall blocking model prompt history params token w1,
     get_token blocking net now w = (Ok token, w1) ->
     net (completion_request (self w1) model token
            (completion_params prompt history false params) false) = Reply r ->
     envelope_rule false d
       (fst (complete blocking net now model prompt history params w)))
  /\ (forall model texts truncate sentences token w1,
        length texts <= batch_size_limit ->
        embed_sentences truncate [] texts = Ok sentences ->
        grant_token net now w = (Ok token, w1) ->
        net (embed_request (self w1) model token (embed_payload sentences)) = Reply r ->
        envelope_rule true d (fst (embed net now model texts truncate w))).
Proof.
  intros Hs Hj. split.
  - intros blocking model prompt history params token w1 Hg Hn.
    rewrite (@completion_answered blocking net now model prompt history params
               w w1 token r Hg Hn (@success_passes blocking _ Hs)).
    unfold read_envelope; rewrite Hj. apply check_envelope_rule.
  - intros model texts truncate sentences token w1 Hl He Hg Hn.
    rewrite (@embed_within_limit net now model texts truncate sentences w Hl He).
    rewrite (@embed_post_answered net now model _ w w1 token r Hg Hn
               (@success_passes true _ Hs)).
    unfold read_envelope; rewrite Hj. apply check_envelope_rule.
Qed.

(** The envelope [{"error_code": 17, "error_msg": "quota"}] in answer to a
    blocking completion. *)
Lemma envelope_checked_witness :
  envelope_rule false quota_envelope
    (fst (complete true (serve Unreachable (json_reply 200 (JObj quota_envelope)))
            1000 (lit "ernie-bot") (lit "hi") [] [] ready_world)).
Proof.
  refine (proj1 (@envelope_checked
                   (serve Unreachable (json_reply 200 (JObj quota_envelope)))
                   1000 ready_world (json_response 200 (JObj quota_envelope))
                   quota_envelope _ eq_refl)
            true (lit "ernie-bot") (lit "hi") [] [] (JStr (lit "tok")) ready_world
            eq_refl eq_refl).
  simpl; lia.
Defined.

Example quota_failure :
  fst (complete true (serve Unreachable (json_reply 200 (JObj quota_envelope)))
         1000 (lit "ernie-bot") (lit "hi") [] [] ready_world)
  = Raise (WenxinFailed (JNum 17) (JStr (lit "quota")) false)
  /\ fst (complete false (serve Unreachable (json_reply 200 (JObj quota_envelope)))
            1000 (lit "ernie-bot") (lit "hi") [] [] ready_world)
     = Raise (WenxinFailed (JNum 17) (JStr (lit "quota")) false)
  /\ fst (embed (serve Unreachable (json_reply 200 (JObj quota_envelope)))
            1000 (lit "embedding-v1") [lit "hi"] None ready_world)
     = Raise (WenxinFailed (JNum 17) (JStr (lit "quota")) true).
Proof. repeat split. Qed.

(** ** Embedding input: batch limit and truncation *)

Lemma last_chars_parts {A : Type} (n : nat) (t : list A) :
  t = firstn (length t - n) t ++ last_chars n t
  /\ length (last_chars n t) = Nat.min n (length t).
Proof.
  unfold last_chars. split.
  - symmetry; apply firstn_skipn.
  - rewrite length_skipn. lia.
Qed.

Lemma first_chars_parts {A : Type} (n : nat) (t : list A) :
  t = first_chars n t ++ skipn n t
  /\ length (first_chars n t) = Nat.min n (length t).
Proof.
  unfold first_chars. split.
  - symmetry; apply firstn_skipn.
  - apply length_firstn.
Qed.

Lemma embed_sentences_start (texts : list str) :
  forall sentences,
    embed_sentences (Some (lit "START")) sentences texts
    = Ok (sentences ++ map (last_chars chars_limit) texts).
Proof.
  induction texts as [|t rest IH]; intros sentences.
  - simpl. now rewrite app_nil_r.
  - cbn [embed_sentences]. replace (truncate_is _ _) with true by reflexivity.
    rewrite IH, <- app_assoc. reflexivity.
Qed.

Lemma embed_sentences_end (texts : list str) :
  forall sentences,
    embed_sentences (Some (lit "END")) sentences texts
    = Ok (sentences ++ map (first_chars chars_limit) texts).
Proof.
  induction texts as [|t rest IH]; intros sentences.
  - simpl. now rewrite app_nil_r.
  - cbn [embed_sentences].
    replace (truncate_is (Some (lit "END")) (lit "START")) with false by reflexivity.
    replace (truncate_is (Some (lit "END")) (lit "END")) with true by reflexivity.
    rewrite IH, <- app_assoc. reflexivity.
Qed.

Lemma truncate_is_other (truncate : option str) (mode : str) :
  truncate <> Some mode -> truncate_is truncate mode = false.
Proof.
  destruct truncate as [s|]; simpl; [|reflexivity].
  intros H. apply str_eqb_neq. congruence.
Qed.

Section NoTruncation.

Variable truncate : option str.
Hypothesis not_start : truncate <> Some (lit "START").
Hypothesis not_end : truncate <> Some (lit "END").

Lemma embed_sentences_kept (texts : list str) :
  Forall (fun t => length t <= chars_limit) texts ->
  forall sentences, embed_sentences truncate sentences texts = Ok (sentences ++ texts).
Proof.
  induction 1 as [|t rest Ht _ IH]; intros sentences.
  - simpl. now rewrite app_nil_r.
  - cbn [embed_sentences]. rewrite !truncate_is_other by assumption.
    destruct (Nat.ltb_spec chars_limit (length t)); [lia|].
    rewrite IH, <- app_assoc. reflexivity.
Qed.

Lemma embed_sentences_rejected (texts : list str) :
  Exists (fun t => chars_limit < length t) texts ->
  forall sentences,
    exists msg, embed_sentences truncate sentences texts = Raise (ValueError msg).
Proof.
  induction texts as [|t rest IH]; intros Hex sentences.
  - inversion Hex.
  - cbn [embed_sentences]. rewrite !truncate_is_other by assumption.
    destruct (Nat.ltb_spec chars_limit (length t)) as [Hlong|Hshort].
    + eexists; reflexivity.
    + inversion Hex; subst; [lia|]. now apply IH.
Qed.

End NoTruncation.

Lemma Forall_or_Exists_long (texts : list str) :
  Forall (fun t => length t <= chars_limit) texts
  \/ Exists (fun t => chars_limit < length t) texts.
Proof.
  induction texts as [|t rest [IH|IH]].
  - left; constructor.
  - destruct (Nat.le_gt_cases (length t) chars_limit).
    + left; now constructor.
    + right; now constructor.
  - right; now constructor.
Qed.

(** The network half of the calls never raises a [ValueError]. *)
Lemma grant_not_validation (is_error : Z -> bool) (net : network) (now : Z) (w : World) :
  forall msg, fst (grant_with is_error net now w) <> Raise (ValueError msg).
Proof.
  intros msg. run_grant.
  destruct (token_valid (self w) now); [discriminate|].
  destruct (net _) as [r|]; [|discriminate].
  destruct (is_error (status r)); [discriminate|].
  destruct (json_body r) as [response|]; [|discriminate].
  unfold getitem.
  destruct response; try discriminate.
  destruct (dict_get (lit "access_token") kv); [|discriminate]. simpl.
  destruct (dict_get (lit "expires_in") kv) as [x|]; [|discriminate].
  destruct x; simpl; discriminate.
Qed.

Lemma check_envelope_not_validation (with_input : bool) (response : json) :
  is_validation_error (check_envelope with_input response) = false.
Proof.
  unfold check_envelope, get_default.
  destruct response; try reflexivity.
  destruct (dict_get (lit "error_code") kv) as [code|]; [|reflexivity].
  destruct (ne_zero code); [|reflexivity].
  now destruct (dict_get (lit "error_msg") kv).
Qed.

Lemma embed_post_not_validation (net : network) (now : Z) (model : str)
    (payload : json) (w : World) :
  is_validation_error (fst (embed_post net now model payload w)) = false.
Proof.
  unfold embed_post, bind at 1.
  pose proof (grant_not_validation requests_status_error net now w) as Hg.
  unfold grant_token.
  destruct (grant_with requests_status_error net now w) as [[token|e] w1]; simpl in *.
  - unfold bind, get_self, http, raise_for_status, lift, ret, raise.
    destruct (net _) as [r|]; [|reflexivity].
    destruct (requests_status_error (status r)); [reflexivity|].
    unfold read_envelope. simpl.
    destruct (json_body r); [|reflexivity].
    apply check_envelope_not_validation.
  - destruct e; try reflexivity. now destruct (Hg msg).
Qed.

Lemma is_validation_error_iff (res : result json) :
  is_validation_error res = true <-> exists msg, res = Raise (ValueError msg).
Proof.
  split.
  - destruct res as [a|e]; [discriminate|]. destruct e; try discriminate.
    intros _. now exists msg.
  - intros (msg & ->). reflexivity.
Qed.

(** The request [embed] posts once the token is in hand, spelled out. *)
Lemma embed_post_sends (net : network) (now : Z) (model : str)
    (sentences : list str) (w w1 : World) (token : json) :
  grant_token net now w = (Ok token, w1) ->
  sent (snd (embed_post net now model (embed_payload sentences) w))
  = sent w1
    ++ [ {| meth := POST;
                   url := lit "https://aip.baidubce.com/rpc/2.0/ai_custom/v1/wenxinworkshop/embeddings/"
                          ++ model;
                   params := [(lit "access_token", token)];
                   body := Some (JObj [(lit "input", JList (map JStr sentences))]);
                   timeout := request_timeout (self w1);
                   stream := false |} ].
Proof.
  intros Hg.
  unfold embed_post, bind, get_self, http, raise_for_status, lift, ret, raise.
  rewrite Hg.
  destruct (net _) as [r|]; [|reflexivity].
  destruct (requests_status_error (status r)); reflexivity.
Qed.

(** C6. For a list of texts within the batch limit: with [truncate] equal to
    "START" the payload holds the last 384 characters of each text, with
    "END" the first 384; with [truncate] unset or anything else the call
    raises the validation error if and only if some text is longer than 384
    characters, and otherwise the payload holds every text as it is.  The
    payload is the [input] list of the JSON body of the one POST the call
    logs once get-token has returned. *)
Theorem embed_truncates (net : network) (now : Z) (model : str)
    (texts : list str) (truncate : option str) (w : World) :
  length texts <= batch_size_limit ->
  (truncate = Some (lit "START") ->
   embed net now model texts truncate w
   = embed_post net now model (embed_payload (map (last_chars 384) texts)) w)
  /\ (truncate = Some (lit "END") ->
      embed net now model texts truncate w
      = embed_post net now model (embed_payload (map (first_chars 384) texts)) w)
  /\ (truncate <> Some (lit "START") -> truncate <> Some (lit "END") ->
      ((exists msg, fst (embed net now model texts truncate w) = Raise (ValueError msg))
       <-> Exists (fun t => 384 < length t) texts)
      /\ (Forall (fun t => length t <= 384) texts ->
          embed net now model texts truncate w
          = embed_post net now model (embed_payload texts) w))
  /\ (forall t : str,
        (exists dropped, t = dropped ++ last_chars 384 t)
        /\ length (last_chars 384 t) = Nat.min 384 (length t)
        /\ (exists dropped, t = first_chars 384 t ++ dropped)
        /\ length (first_chars 384 t) = Nat.min 384 (length t))
  /\ (forall token w1 sentences,
        grant_token net now w = (Ok token, w1) ->
        (truncate = Some (lit "START") /\ sentences = map (last_chars 384) texts)
        \/ (truncate = Some (lit "END") /\ sentences = map (first_chars 384) texts)
        \/ (truncate <> Some (lit "START") /\ truncate <> Some (lit "END")
            /\ Forall (fun t => length t <= 384) texts /\ sentences = texts) ->
        sent (snd (embed net now model texts truncate w))
        = sent w1
          ++ [ {| meth := POST;
                   url := lit "https://aip.baidubce.com/rpc/2.0/ai_custom/v1/wenxinworkshop/embeddings/"
                          ++ model;
                   params := [(lit "access_token", token)];
                   body := Some (JObj [(lit "input", JList (map JStr sentences))]);
                   timeout := request_timeout (self w1);
                   stream := false |} ]).
Proof.
  intros Hl.
  assert (Hstart : truncate = Some (lit "START") ->
                   embed net now model texts truncate w
                   = embed_post net now model
                       (embed_payload (map (last_chars 384) texts)) w).
  { intros ->. apply embed_within_limit; [exact Hl|].
    apply (embed_sentences_start texts []). }
  assert (Hend : truncate = Some (lit "END") ->
                 embed net now model texts truncate w
                 = embed_post net now model
                     (embed_payload (map (first_chars 384) texts)) w).
  { intros ->. apply embed_within_limit; [exact Hl|].
    apply (embed_sentences_end texts []). }
  assert (Hkept : truncate <> Some (lit "START") -> truncate <> Some (lit "END") ->
                  Forall (fun t => length t <= 384) texts ->
                  embed net now model texts truncate w
                  = embed_post net now model (embed_payload texts) w).
  { intros Hs He Hall. apply embed_within_limit; [exact Hl|].
    apply (embed_sentences_kept Hs He Hall []). }
  split; [exact Hstart|]. split; [exact Hend|]. split; [|split].
  - intros Hs He. split; [split|exact (Hkept Hs He)].
    + intros Hraise. destruct (Forall_or_Exists_long texts) as [Hall|Hex]; [|exact Hex].
      apply is_validation_error_iff in Hraise.
      rewrite (Hkept Hs He Hall), embed_post_not_validation in Hraise. discriminate.
    + intros Hex.
      destruct (embed_sentences_rejected Hs He Hex []) as (msg & Hmsg).
      exists msg. unfold embed.
      destruct (Nat.ltb_spec batch_size_limit (length texts)); [lia|].
      unfold bind, lift. now rewrite Hmsg.
  - intros t. repeat split.
    + eexists. apply (last_chars_parts 384 t).
    + apply (last_chars_parts 384 t).
    + eexists. apply (first_chars_parts 384 t).
    + apply (first_chars_parts 384 t).
  - intros token w1 sentences Hg [[Hm ->]|[[Hm ->]|(Hs & He & Hall & ->)]].
    + rewrite (Hstart Hm). now apply embed_post_sends.
    + rewrite (Hend Hm). now apply embed_post_sends.
    + rewrite (Hkept Hs He Hall). now apply embed_post_sends.
Qed.

(** C7. With more than 16 texts [embed] raises the validation error and
    leaves the world as it was: no request is logged and the client is
    untouched.  And whenever [embed] ends in a validation error, of either
    kind, the world is as it was before the call. *)
Theorem embed_fails_fast (net : network) (now : Z) (model : str)
    (texts : list str) (truncate : option str) (w : World) :
  (batch_size_limit < length texts ->
   embed net now model texts truncate w
   = (Raise (ValueError (lit "texts batch_size must less than 16.")), w))
  /\ (forall msg w',
        embed net now model texts truncate w = (Raise (ValueError msg), w') ->
        w' = w).
Proof.
  split.
  - intros H. unfold embed.
    destruct (Nat.ltb_spec batch_size_limit (length texts)); [reflexivity | lia].
  - intros msg w'. unfold embed.
    destruct (batch_size_limit <? length texts).
    { unfold raise. congruence. }
    unfold bind at 1, lift.
    destruct (embed_sentences truncate [] texts) as [sentences|e].
    + intros H.
      pose proof (embed_post_not_validation net now model (embed_payload sentences) w) as Hn.
      rewrite H in Hn. discriminate.
    + congruence.
Qed.

(** Seventeen empty texts. *)
Lemma embed_fails_fast_witness :
  embed (serve Unreachable Unreachable) 1000 (lit "embedding-v1") (repeat [] 17) None
    fresh_world
  = (Raise (ValueError (lit "texts batch_size must less than 16.")), fresh_world).
Proof.
  apply (embed_fails_fast (serve Unreachable Unreachable) 1000 (lit "embedding-v1")
           (repeat [] 17) None fresh_world).
  simpl; unfold batch_size_limit; lia.
Defined.

(** C10. Both limits are strict: sixteen texts of 384 characters each, with
    no truncate mode, pass the two checks and go, as they are, into the
    [input] list of the body of the POST the call logs once get-token has
    returned; the errors raised just past the limits are worded "must less
    than 16" and "is greater than 384". *)
Theorem embed_accepts_boundary (net : network) (now : Z) (model : str)
    (texts : list str) (w : World) :
  length texts = 16 ->
  Forall (fun t => length t = 384) texts ->
  embed_sentences None [] texts = Ok texts
  /\ embed net now model texts None w
     = embed_post net now model (embed_payload texts) w
  /\ fst (embed net now model (repeat [] 17) None w)
     = Raise (ValueError (lit "texts batch_size must less than 16."))
  /\ fst (embed net now model [repeat 97%N 385] None w)
     = Raise (ValueError (lit "input text length 385 is greater than 384."))
  /\ (forall token w1,
        grant_token net now w = (Ok token, w1) ->
        sent (snd (embed net now model texts None w))
        = sent w1
          ++ [ {| meth := POST;
                   url := lit "https://aip.baidubce.com/rpc/2.0/ai_custom/v1/wenxinworkshop/embeddings/"
                          ++ model;
                   params := [(lit "access_token", token)];
                   body := Some (JObj [(lit "input", JList (map JStr texts))]);
                   timeout := request_timeout (self w1);
                   stream := false |} ]).
Proof.
  intros Hn Hall.
  assert (Hkept : embed_sentences None [] texts = Ok texts).
  { apply (@embed_sentences_kept None); try discriminate.
    eapply Forall_impl; [|exact Hall]. unfold chars_limit. simpl; intros; lia. }
  assert (Hpost : embed net now model texts None w
                  = embed_post net now model (embed_payload texts) w).
  { apply embed_within_limit; [unfold batch_size_limit; lia | exact Hkept]. }
  split; [exact Hkept|]. split; [exact Hpost|].
  split; [reflexivity|]. split; [reflexivity|].
  intros token w1 Hg. rewrite Hpost. now apply embed_post_sends.
Qed.

(** A text of 400 characters, sixteen of them before the last 384, posted
    by a client that holds a valid token. *)
Lemma embed_truncates_witness :
  sent (snd (embed (serve Unreachable Unreachable) 1000 (lit "embedding-v1")
               [repeat 97%N 16 ++ repeat 98%N 384] (Some (lit "START")) ready_world))
  = [ {| meth := POST;
         url := lit "https://aip.baidubce.com/rpc/2.0/ai_custom/v1/wenxinworkshop/embeddings/embedding-v1";
         params := [(lit "access_token", JStr (lit "tok"))];
         body := Some (JObj [(lit "input", JList [JStr (repeat 98%N 384)])]);
         timeout := Some 30%Z;
         stream := false |} ].
Proof.
  assert (Hl : length [repeat 97%N 16 ++ repeat 98%N 384] <= batch_size_limit)
    by (simpl; unfold batch_size_limit; lia).
  destruct (@embed_truncates (serve Unreachable Unreachable) 1000
              (lit "embedding-v1") [repeat 97%N 16 ++ repeat 98%N 384]
              (Some (lit "START")) ready_world Hl) as (_ & _ & _ & _ & Hsent).
  exact (Hsent (JStr (lit "tok")) ready_world [repeat 98%N 384] eq_refl
           (or_introl (conj eq_refl eq_refl))).
Defined.

(** Sixteen texts of 384 characters, posted by a client that holds a valid
    token. *)
Lemma embed_accepts_boundary_witness :
  sent (snd (embed (serve Unreachable Unreachable) 1000 (lit "embedding-v1")
               (repeat (repeat 97%N 384) 16) None ready_world))
  = [ {| meth := POST;
         url := lit "https://aip.baidubce.com/rpc/2.0/ai_custom/v1/wenxinworkshop/embeddings/embedding-v1";
         params := [(lit "access_token", JStr (lit "tok"))];
         body := Some (JObj [(lit "input",
                              JList (repeat (JStr (repeat 97%N 384)) 16))]);
         timeout := Some 30%Z;
         stream := false |} ].
Proof.
  assert (Hn : length (repeat (repeat 97%N 384) 16) = 16) by reflexivity.
  assert (Hall : Forall (fun t : str => length t = 384) (repeat (repeat 97%N 384) 16))
    by (repeat constructor).
  destruct (@embed_accepts_boundary (serve Unreachable Unreachable) 1000
              (lit "embedding-v1") (repeat (repeat 97%N 384) 16) ready_world Hn Hall)
    as (_ & _ & _ & _ & Hsent).
  exact (Hsent (JStr (lit "tok")) ready_world eq_refl).
Defined.

(** ** Manual reframing *)

(** No proper prefix of the frame ends in a terminator; the frame does. *)
Lemma proper_prefix_open (k : nat) :
  k < 15 -> ends_frame (firstn k event_bytes) = false.
Proof.
  intros H. do 15 (destruct k as [|k]; [reflexivity|]). lia.
Qed.

Lemma prefix_is_firstn {A : Type} (a b t : list A) :
  a ++ b = t -> a = firstn (length a) t.
Proof.
  intros <-. rewrite firstn_app, Nat.sub_diag, firstn_all. simpl.
  now rewrite app_nil_r.
Qed.

(** Chunks that carry no byte produce no frame. *)
Lemma read_from_empty (chunks : list bytes) :
  concat chunks = [] -> read_from [] chunks = [].
Proof.
  induction chunks as [|chunk rest IH]; simpl; [reflexivity|].
  intros H. apply app_eq_nil in H as [-> Hrest]. simpl. now apply IH.
Qed.

(** The buffer holds a proper prefix of the frame and the chunks to come
    hold the rest: one frame comes out, the whole of it. *)
Lemma read_from_prefix (chunks : list bytes) :
  forall data,
    data ++ concat chunks = event_bytes ->
    length data < 15 ->
    read_from data chunks = [event_bytes].
Proof.
  induction chunks as [|chunk rest IH]; intros data Hcat Hlen.
  - simpl in Hcat. rewrite app_nil_r in Hcat. subst data.
    vm_compute in Hlen. lia.
  - simpl in Hcat. rewrite app_assoc in Hcat. cbn [read_from]. cbv zeta.
    assert (Hle : length (data ++ chunk) <= 15).
    { apply (f_equal (@length byte)) in Hcat. rewrite length_app in Hcat.
      change (length event_bytes) with 15 in Hcat. lia. }
    destruct (Nat.eq_dec (length (data ++ chunk)) 15) as [Hfull|Hpart].
    + assert (Hrest : concat rest = []).
      { apply (f_equal (@length byte)) in Hcat. rewrite length_app in Hcat.
        change (length event_bytes) with 15 in Hcat.
        apply length_zero_iff_nil. lia. }
      rewrite Hrest, app_nil_r in Hcat. rewrite Hcat.
      change (ends_frame event_bytes) with true. cbv iota.
      now rewrite read_from_empty.
    + rewrite (prefix_is_firstn _ _ Hcat) at 1.
      rewrite proper_prefix_open by lia.
      apply IH; [exact Hcat | lia].
Qed.

Lemma read_reassembles (chunks : list bytes) :
  concat chunks = event_bytes -> read chunks = [event_bytes].
Proof.
  intros H. apply read_from_prefix; [exact H | simpl; lia].
Qed.

Lemma yield_event_frame (json_loads : str -> option json) :
  json_loads (lit event_text) = Some event_object ->
  yield_frames json_loads [event_bytes]
  = {| yielded := [event_object]; finished := Ok None |}.
Proof.
  intros H. cbn [yield_frames].
  change (decode event_bytes) with (Ok (lit ("data: " ++ event_text ++ lf ++ lf))).
  cbv iota.
  change (startswith N.eqb (lit ("data: " ++ event_text ++ lf ++ lf)) (lit "data:"))
    with true.
  cbn [negb]. cbv iota zeta.
  change (strip (skipn 5 (lit ("data: " ++ event_text ++ lf ++ lf))))
    with (lit event_text).
  rewrite H. reflexivity.
Qed.

(** C3. However the bytes of [data: {"a":1}] and its blank line are cut into
    chunks (empty ones allowed as well), [read] puts out the one whole frame
    and the consuming loop of the non-blocking generator yields exactly one
    event, the object [{"a": 1}], provided [json.loads] decodes that text to
    that object. *)
Theorem reframing_ignores_chunking (json_loads : str -> option json)
    (chunks : list bytes) :
  json_loads (lit event_text) = Some event_object ->
  concat chunks = event_bytes ->
  read chunks = [event_bytes]
  /\ yield_frames json_loads (read chunks)
     = {| yielded := [event_object]; finished := Ok None |}
  /\ (forall r,
        is_event_stream r = true ->
        content r = chunks ->
        acompletion_stream_body json_loads r
        = {| yielded := [event_object]; finished := Ok None |}).
Proof.
  intros Hloads Hcat.
  pose proof (read_reassembles chunks Hcat) as Hread.
  split; [exact Hread|]. split.
  - rewrite Hread. now apply yield_event_frame.
  - intros r Hes Hc. unfold acompletion_stream_body.
    rewrite Hes, Hc, Hread. now apply yield_event_frame.
Qed.

(** The frame cut after [data: {], and again before its last byte, read
    with the JSON reader of the examples. *)
Lemma reframing_ignores_chunking_witness :
  yield_frames loads
    (read [blit "data: {"; blit (dq ++ "a" ++ dq ++ ":1}" ++ lf); blit lf])
  = {| yielded := [event_object]; finished := Ok None |}.
Proof.
  exact (proj1 (proj2 (@reframing_ignores_chunking loads
           [blit "data: {"; blit (dq ++ "a" ++ dq ++ ":1}" ++ lf); blit lf]
           eq_refl eq_refl))).
Defined.

(** ** The fallback of the streaming generators *)

(** In the blocking generator a response that is not an event stream never
    yields: its envelope, when it passes the check, is the value the
    generator returns. *)
Lemma completion_stream_fallback (json_loads : str -> option json)
    (sse_events : Response -> list str) (r : Response) :
  is_event_stream r = false ->
  yielded (completion_stream_body json_loads sse_events r) = [].
Proof.
  intros H. unfold completion_stream_body. rewrite H. simpl.
  now destruct (read_envelope false r).
Qed.

(** In the non-blocking generator the envelope is yielded and the loop over
    [read(r.content)] runs after it. *)
Lemma acompletion_stream_fallback (json_loads : str -> option json)
    (r : Response) (response : json) :
  is_event_stream r = false ->
  read_envelope false r = Ok response ->
  acompletion_stream_body json_loads r
  = {| yielded := response :: yielded (yield_frames json_loads (read (content r)));
       finished := finished (yield_frames json_loads (read (content r))) |}.
Proof.
  intros H He. unfold acompletion_stream_body. now rewrite H, He.
Qed.

(** C1, on the code.  A client with a valid token posts a streaming
    completion and is answered [200], [application/json], with the envelope
    [{"error_code": 0, "result": "hi"}].  The blocking generator yields no
    event at all: the envelope is only its return value.  The non-blocking
    generator yields the envelope. *)
Theorem completion_stream_fallback_yields_nothing
    (json_loads : str -> option json) (sse_events : Response -> list str) :
  fst (completion_stream json_loads sse_events
         (serve Unreachable (json_reply 200 (JObj plain_envelope)))
         1000 (lit "ernie-bot") (lit "hi") [] [] ready_world)
  = {| yielded := []; finished := Ok (Some (JObj plain_envelope)) |}
  /\ fst (acompletion_stream json_loads
            (serve Unreachable (json_reply 200 (JObj plain_envelope)))
            1000 (lit "ernie-bot") (lit "hi") [] [] ready_world)
     = {| yielded := [JObj plain_envelope]; finished := Ok None |}.
Proof. split; reflexivity. Qed.

(* ------------------------------------------------------------------ *)
(** * Further properties of the client *)
(* ------------------------------------------------------------------ *)

(** ** Request parameters *)

Lemma dict_get_set_same (k : str) (v : json) (d : dict) :
  dict_get k (dict_set k v d) = Some v.
Proof.
  induction d as [|[k0 v0] d IH]; simpl.
  - now rewrite str_eqb_refl.
  - destruct (str_eqb k k0) eqn:E; simpl; rewrite E; [reflexivity | exact IH].
Qed.

Lemma dict_get_set_other (k k' : str) (v : json) (d : dict) :
  k' <> k -> dict_get k' (dict_set k v d) = dict_get k' d.
Proof.
  intros Hne. induction d as [|[k0 v0] d IH]; simpl.
  - now rewrite str_eqb_neq.
  - destruct (str_eqb k k0) eqn:E; simpl.
    + apply str_eqb_eq in E; subst k0. now rewrite str_eqb_neq.
    + destruct (str_eqb k' k0); [reflexivity | exact IH].
Qed.

(** ** Messages determine the conversation *)

Lemma flat_messages_injective (history : list (str * str)) :
  forall history' prompt prompt',
    flat_map pair_messages history ++ [message (lit "user") prompt]
    = flat_map pair_messages history' ++ [message (lit "user") prompt'] ->
    prompt = prompt' /\ history = history'.
Proof.
  induction history as [|[human ai] rest IH]; intros [|[human' ai'] rest'] p p' H;
    cbn [flat_map pair_messages app fst snd] in H.
  - injection H as ->. now split.
  - injection H as _ H. discriminate.
  - injection H as _ H. discriminate.
  - injection H as -> -> H. destruct (IH _ _ _ H) as [-> ->]. now split.
Qed.

(** X2. [construct_message] loses nothing: two calls that return the same
    message list were given the same prompt and the same history. *)
Theorem construct_message_injective (prompt prompt' : str)
    (history history' : list (str * str)) :
  construct_message prompt history = construct_message prompt' history' ->
  prompt = prompt' /\ history = history'.
Proof.
  unfold construct_message. rewrite !append_history_flat. simpl app.
  apply flat_messages_injective.
Qed.

Lemma construct_message_injective_witness :
  lit "now?" = lit "now?" /\ [(lit "hi", lit "hello")] = [(lit "hi", lit "hello")].
Proof.
  exact (@construct_message_injective (lit "now?") (lit "now?")
           [(lit "hi", lit "hello")] [(lit "hi", lit "hello")] eq_refl).
Defined.

(** ** The first call of a new client *)

(** X3. A client fresh from [__init__] never serves a token from its cache:
    whatever the clock says, its first get-token call, in either mode,
    issues exactly the credential request built from the key and secret the
    constructor was given. *)
Theorem fresh_client_grants (api_key secret_key : str) (request_timeout : option Z)
    (blocking : bool) (net : network) (now : Z) (log : list Request) :
  sent (snd (get_token blocking net now
               {| self := init api_key secret_key request_timeout; sent := log |}))
  = log ++ [ {| meth := GET;
                url := WENXIN_TOKEN_URL;
                params := [(lit "grant_type", JStr (lit "client_credentials"));
                           (lit "client_id", JStr api_key);
                           (lit "client_secret", JStr secret_key)];
                body := None;
                timeout := Some 5%Z;
                stream := false |} ].
Proof.
  rewrite get_token_grant.
  now rewrite grant_sends_once by reflexivity.
Qed.

(** ** The frames of [read] *)

Lemma ends_frame_nonempty (data : bytes) : ends_frame data = true -> data <> [].
Proof. intros H ->. discriminate. Qed.

Lemma read_from_concat (chunks : list bytes) :
  forall data, concat (read_from data chunks) = data ++ concat chunks.
Proof.
  induction chunks as [|chunk rest IH]; intros data; cbn [read_from concat].
  - destruct data; simpl; [reflexivity | now rewrite !app_nil_r].
  - cbv zeta. destruct (ends_frame (data ++ chunk)).
    + cbn [concat]. rewrite IH. simpl. now rewrite app_assoc.
    + rewrite IH. now rewrite app_assoc.
Qed.

Lemma read_from_nonempty (chunks : list bytes) :
  forall data, Forall (fun frame => frame <> []) (read_from data chunks).
Proof.
  induction chunks as [|chunk rest IH]; intros data; cbn [read_from].
  - destruct data; constructor; [discriminate | constructor].
  - cbv zeta. destruct (ends_frame (data ++ chunk)) eqn:E.
    + constructor; [now apply ends_frame_nonempty | apply IH].
    + apply IH.
Qed.

Lemma read_from_closed (chunks : list bytes) :
  forall data,
    Forall (fun frame => ends_frame frame = true) (removelast (read_from data chunks)).
Proof.
  induction chunks as [|chunk rest IH]; intros data; cbn [read_from].
  - destruct data; constructor.
  - cbv zeta. destruct (ends_frame (data ++ chunk)) eqn:E.
    + specialize (IH []). cbn [removelast].
      destruct (read_from [] rest); [constructor|].
      constructor; [exact E | exact IH].
    + apply IH.
Qed.

(** X4. [read] only regroups the bytes it is given: the frames it puts out,
    joined, are the chunks joined; no frame is empty; and every frame before
    the last ends in one of the three terminators. *)
Theorem read_regroups (chunks : list bytes) :
  concat (read chunks) = concat chunks
  /\ Forall (fun frame => frame <> []) (read chunks)
  /\ Forall (fun frame => ends_frame frame = true) (removelast (read chunks)).
Proof.
  unfold read. split; [|split].
  - apply (read_from_concat chunks []).
  - apply read_from_nonempty.
  - apply read_from_closed.
Qed.

Lemma read_from_bound (chunks : list bytes) :
  forall data,
    length (read_from data chunks)
    <= length chunks + match data with [] => 0 | _ => 1 end.
Proof.
  induction chunks as [|chunk rest IH]; intros data; cbn [read_from].
  - destruct data; simpl; lia.
  - cbv zeta. destruct (ends_frame (data ++ chunk)).
    + specialize (IH []). simpl in *. lia.
    + specialize (IH (data ++ chunk)). simpl.
      destruct (data ++ chunk); simpl in *; lia.
Qed.

(** X5. A terminator is looked for at the end of the buffer only, once per
    chunk: [read] never puts out more frames than it was given chunks, and a
    body that arrives as a single chunk comes out as a single frame, however
    many blank lines it holds. *)
Theorem read_frames_bounded (chunks : list bytes) :
  length (read chunks) <= length chunks
  /\ (forall chunk, chunk <> [] -> read [chunk] = [chunk]).
Proof.
  split.
  - pose proof (read_from_bound chunks []) as H. simpl in H. unfold read. lia.
  - intros chunk Hne. unfold read. cbn [read_from app]. cbv zeta.
    destruct (ends_frame chunk); [reflexivity|].
    destruct chunk; [contradiction | reflexivity].
Qed.

(** X6. When every chunk ends in a terminator, each chunk is a frame:
    [read] returns the chunks as they came. *)
Theorem read_aligned (chunks : list bytes) :
  Forall (fun chunk => ends_frame chunk = true) chunks ->
  read chunks = chunks.
Proof.
  unfold read. induction 1 as [|chunk rest Hc _ IH]; [reflexivity|].
  cbn [read_from app]. cbv zeta. now rewrite Hc, IH.
Qed.

(** Two events, each in a chunk of its own. *)
Lemma read_aligned_witness :
  read [event_bytes; event_bytes] = [event_bytes; event_bytes].
Proof.
  apply (@read_aligned [event_bytes; event_bytes]).
  repeat constructor.
Defined.

(** ** What the streaming loops deliver *)

Lemma yield_events_stops (json_loads : str -> option json) (datas : list str) :
  stops_on_decoding (finished (yield_events json_loads datas)).
Proof.
  induction datas as [|d rest IH]; cbn [yield_events].
  - left; reflexivity.
  - destruct (json_loads d); [exact IH | right; left; reflexivity].
Qed.

Lemma yield_frames_stops (json_loads : str -> option json) (frames : list bytes) :
  stops_on_decoding (finished (yield_frames json_loads frames)).
Proof.
  induction frames as [|line rest IH]; cbn [yield_frames].
  - left; reflexivity.
  - unfold decode. destruct (utf8 _) as [line_decoded|].
    + destruct (negb (startswith N.eqb line_decoded (lit "data:"))); [exact IH|].
      destruct (json_loads _); [exact IH | right; left; reflexivity].
    + right; right; reflexivity.
Qed.

(** X7. Once the response is an event stream, neither generator checks the
    envelope of what it decodes: the loop ends with the body or on a frame
    that does not decode, and never with the provider failure that the
    non-streaming calls raise. *)
Theorem streams_skip_envelope_check (json_loads : str -> option json)
    (sse_events : Response -> list str) (r : Response) :
  is_event_stream r = true ->
  stops_on_decoding (finished (completion_stream_body json_loads sse_events r))
  /\ stops_on_decoding (finished (acompletion_stream_body json_loads r))
  /\ (forall code msg flag,
        finished (completion_stream_body json_loads sse_events r)
        <> Raise (WenxinFailed code msg flag)
        /\ finished (acompletion_stream_body json_loads r)
           <> Raise (WenxinFailed code msg flag)).
Proof.
  intros H. unfold completion_stream_body, acompletion_stream_body. rewrite H.
  cbn [negb].
  pose proof (yield_events_stops json_loads (sse_events r)) as He.
  pose proof (yield_frames_stops json_loads (read (content r))) as Hf.
  split; [exact He|]. split; [exact Hf|].
  intros code msg flag. split; intros E.
  - rewrite E in He. destruct He as [He|[He|He]]; discriminate.
  - rewrite E in Hf. destruct Hf as [Hf|[Hf|Hf]]; discriminate.
Qed.

(** An event stream of one frame. *)
Lemma streams_skip_envelope_check_witness :
  stops_on_decoding
    (finished (acompletion_stream_body loads
                 {| status := 200;
                    content_type := Some (lit "text/event-stream; charset=utf-8");
                    json_body := None;
                    content := [event_bytes] |})).
Proof.
  exact (proj1 (proj2 (@streams_skip_envelope_check loads (fun _ => [])
           {| status := 200;
              content_type := Some (lit "text/event-stream; charset=utf-8");
              json_body := None;
              content := [event_bytes] |} eq_refl))).
Defined.

(** X8. The blocking generator yields the events in the order the decoder
    hands them over: all of them when every [data] field is JSON, and when
    one is not, those before it, after which [JSONDecodeError] escapes. *)
Theorem yield_events_until_malformed (json_loads : str -> option json)
    (good : list str) (events : list json) :
  Forall2 (fun d v => json_loads d = Some v) good events ->
  yield_events json_loads good = {| yielded := events; finished := Ok None |}
  /\ (forall bad rest,
        json_loads bad = None ->
        yield_events json_loads (good ++ bad :: rest)
        = {| yielded := events; finished := Raise JSONDecodeError |}).
Proof.
  induction 1 as [|d v good events Hd _ [IHall IHbad]].
  - split; [reflexivity|]. intros bad rest Hb. simpl. now rewrite Hb.
  - split.
    + cbn [yield_events]. now rewrite Hd, IHall.
    + intros bad rest Hb. cbn [yield_events app]. rewrite Hd.
      now rewrite (IHbad bad rest Hb).
Qed.

(** One event, then a field that is not JSON. *)
Lemma yield_events_until_malformed_witness :
  yield_events loads [lit event_text; lit "oops"; lit event_text]
  = {| yielded := [event_object]; finished := Raise JSONDecodeError |}.
Proof.
  refine (proj2 (@yield_events_until_malformed loads [lit event_text] [event_object] _)
            (lit "oops") [lit event_text] eq_refl).
  repeat constructor.
Defined.

(** ** How a call unfolds *)

Lemma complete_cases (blocking : bool) (net : network) (now : Z)
    (model prompt : str) (history : list (str * str)) (params : dict) (w : World) :
  complete blocking net now model prompt history params w
  = match get_token blocking net now w with
    | (Raise e, w1) => (Raise e, w1)
    | (Ok token, w1) =>
        match net (completion_request (self w1) model token
                     (completion_params prompt history false params) false) with
        | Unreachable =>
            (Raise TransportError,
             logged w1 (completion_request (self w1) model token
                          (completion_params prompt history false params) false))
        | Reply r =>
            (if status_error blocking (status r)
             then Raise (HTTPError (status r))
             else read_envelope false r,
             logged w1 (completion_request (self w1) model token
                          (completion_params prompt history false params) false))
        end
    end.
Proof.
  destruct blocking;
    unfold complete, completion, acompletion, get_token, status_error;
    unfold bind at 1;
    [destruct (grant_token net now w) as [[token|e] w1]
    |destruct (async_grant_token net now w) as [[token|e] w1]];
    try reflexivity;
    unfold bind, get_self, http, raise_for_status, lift, ret, raise;
    (destruct (net _) as [r|]; [|reflexivity]);
    match goal with |- context [if ?b then _ else _] => destruct b end;
    reflexivity.
Qed.

Lemma embed_post_cases (net : network) (now : Z) (model : str) (payload : json)
    (w : World) :
  embed_post net now model payload w
  = match grant_token net now w with
    | (Raise e, w1) => (Raise e, w1)
    | (Ok token, w1) =>
        match net (embed_request (self w1) model token payload) with
        | Unreachable =>
            (Raise TransportError, logged w1 (embed_request (self w1) model token payload))
        | Reply r =>
            (if requests_status_error (status r)
             then Raise (HTTPError (status r))
             else read_envelope true r,
             logged w1 (embed_request (self w1) model token payload))
        end
    end.
Proof.
  unfold embed_post. unfold bind at 1.
  destruct (grant_token net now w) as [[token|e] w1]; [|reflexivity].
  unfold bind, get_self, http, raise_for_status, lift, ret, raise.
  destruct (net _) as [r|]; [|reflexivity].
  destruct (requests_status_error (status r)); reflexivity.
Qed.

Lemma stream_with_cases (grant : network -> Z -> M json) (is_error : Z -> bool)
    (stream_kw : bool) (body_of : Response -> Generated)
    (net : network) (now : Z) (model prompt : str) (history : list (str * str))
    (params : dict) (w : World) :
  stream_with grant is_error stream_kw body_of net now model prompt history params w
  = match grant net now w with
    | (Raise e, w1) => ({| yielded := []; finished := Raise e |}, w1)
    | (Ok token, w1) =>
        match net (completion_request (self w1) model token
                     (completion_params prompt history true params) stream_kw) with
        | Unreachable =>
            ({| yielded := []; finished := Raise TransportError |},
             logged w1 (completion_request (self w1) model token
                          (completion_params prompt history true params) stream_kw))
        | Reply r =>
            (if is_error (status r)
             then {| yielded := []; finished := Raise (HTTPError (status r)) |}
             else body_of r,
             logged w1 (completion_request (self w1) model token
                          (completion_params prompt history true params) stream_kw))
        end
    end.
Proof.
  unfold stream_with. unfold bind at 1.
  destruct (grant net now w) as [[token|e] w1]; [|reflexivity].
  unfold bind, get_self, http, raise_for_status, lift, ret, raise.
  destruct (net _) as [r|]; [|reflexivity].
  destruct (is_error (status r)); reflexivity.
Qed.

Lemma grant_log (is_error : Z -> bool) (net : network) (now : Z) (w : World) :
  sent (snd (grant_with is_error net now w))
  = sent w ++ (if token_valid (self w) now then [] else [grant_request (self w)]).
Proof.
  destruct (token_valid (self w) now) eqn:E.
  - rewrite grant_cached by exact E. simpl. now rewrite app_nil_r.
  - now apply grant_sends_once.
Qed.

Lemma grant_failure_uncached (is_error : Z -> bool) (net : network) (now : Z)
    (w w1 : World) (e : exn) :
  grant_with is_error net now w = (Raise e, w1) ->
  token_valid (self w) now = false.
Proof.
  intros H. destruct (token_valid (self w) now) eqn:E; [|reflexivity].
  rewrite grant_cached in H by exact E. discriminate.
Qed.

(** ** Failures on the way to the response *)

(** X9. When get-token fails, every call that needs the token fails the same
    way without posting anything: the non-streaming completion of that mode,
    the streaming generator of that mode (which yields nothing) and, for the
    blocking mode, the embedding request.  The credential request is the
    only one logged. *)
Theorem failed_grant_stops_call (blocking : bool) (net : network) (now : Z)
    (w w1 : World) (e : exn) :
  get_token blocking net now w = (Raise e, w1) ->
  sent w1 = sent w ++ [grant_request (self w)]
  /\ (forall model prompt history params,
        complete blocking net now model prompt history params w = (Raise e, w1))
  /\ (forall json_loads sse_events model prompt history params,
        (if blocking
         then completion_stream json_loads sse_events
         else acompletion_stream json_loads)
          net now model prompt history params w
        = ({| yielded := []; finished := Raise e |}, w1))
  /\ (blocking = true ->
      forall model payload, embed_post net now model payload w = (Raise e, w1)).
Proof.
  intros H. split; [|split; [|split]].
  - pose proof H as H'. rewrite get_token_grant in H'.
    pose proof (@grant_sends_once (status_error blocking) net now w
                  (@grant_failure_uncached _ net now w w1 e H')) as Hs.
    now rewrite H' in Hs.
  - intros. now rewrite complete_cases, H.
  - intros. destruct blocking; unfold completion_stream, acompletion_stream;
      rewrite stream_with_cases; unfold get_token in H; now rewrite H.
  - intros -> model payload. rewrite embed_post_cases.
    unfold get_token in H. now rewrite H.
Qed.

(** A stale client whose credential request does not get through. *)
Lemma failed_grant_stops_call_witness :
  complete true (serve Unreachable Unreachable) 1000 (lit "ernie-bot") (lit "hi") [] []
    stale_world
  = (Raise TransportError, logged stale_world (grant_request (self stale_world))).
Proof.
  exact (proj1 (proj2 (@failed_grant_stops_call true (serve Unreachable Unreachable)
           1000 stale_world (logged stale_world (grant_request (self stale_world)))
           TransportError eq_refl))
         (lit "ernie-bot") (lit "hi") [] []).
Defined.

Lemma failure_rejected (blocking : bool) (s : Z) :
  (400 <= s < 600)%Z -> status_error blocking s = true.
Proof.
  intros H.
  destruct blocking; unfold status_error, requests_status_error, aiohttp_status_error.
  - apply andb_true_iff; split; [apply Z.leb_le | apply Z.ltb_lt]; lia.
  - apply Z.leb_le; lia.
Qed.

(** X10. A completion or embedding request answered with a 4xx or 5xx status
    raises the HTTP error of that status; the body is not looked at, so an
    error envelope in it is not reported as a provider failure. *)
Theorem error_status_precedes_envelope (blocking : bool) (net : network) (now : Z)
    (w w1 : World) (token : json) (r : Response) :
  (400 <= status r < 600)%Z ->
  get_token blocking net now w = (Ok token, w1) ->
  (forall model prompt history params,
     net (completion_request (self w1) model token
            (completion_params prompt history false params) false) = Reply r ->
     fst (complete blocking net now model prompt history params w)
     = Raise (HTTPError (status r)))
  /\ (blocking = true ->
      forall model payload,
        net (embed_request (self w1) model token payload) = Reply r ->
        fst (embed_post net now model payload w) = Raise (HTTPError (status r))).
Proof.
  intros Hs Hg. split.
  - intros model prompt history params Hn.
    now rewrite complete_cases, Hg, Hn, (failure_rejected blocking Hs).
  - intros -> model payload Hn. rewrite embed_post_cases.
    unfold get_token in Hg. rewrite Hg, Hn.
    now rewrite (failure_rejected true Hs : requests_status_error _ = true).
Qed.

(** Status 500 with the quota envelope in the body. *)
Lemma error_status_precedes_envelope_witness :
  fst (complete false (serve Unreachable (json_reply 500 (JObj quota_envelope)))
         1000 (lit "ernie-bot") (lit "hi") [] [] ready_world)
  = Raise (HTTPError 500).
Proof.
  refine (proj1 (@error_status_precedes_envelope false
                   (serve Unreachable (json_reply 500 (JObj quota_envelope)))
                   1000 ready_world ready_world (JStr (lit "tok"))
                   (json_response 500 (JObj quota_envelope)) _ eq_refl)
            (lit "ernie-bot") (lit "hi") [] [] eq_refl).
  simpl; lia.
Defined.

(** ** What a call hands back *)

Lemma read_envelope_ok (with_input : bool) (r : Response) (v : json) :
  read_envelope with_input r = Ok v ->
  json_body r = Some v
  /\ exists d, v = JObj d
               /\ forall code, dict_get (lit "error_code") d = Some code ->
                               ne_zero code = false.
Proof.
  unfold read_envelope. destruct (json_body r) as [response|]; [|discriminate].
  destruct response; try discriminate.
  rewrite check_envelope_object.
  destruct (dict_get (lit "error_code") kv) as [code|] eqn:Hc.
  - destruct (ne_zero code) eqn:Hz; [discriminate|].
    intros E; inversion E; subst. split; [reflexivity|].
    exists kv. split; [reflexivity|]. intros c Hc'. congruence.
  - intros E; inversion E; subst. split; [reflexivity|].
    exists kv. split; [reflexivity|]. intros c Hc'. congruence.
Qed.

(** X11. Whatever a non-streaming completion or an embedding call returns is
    a JSON object whose [error_code] is missing or equal to 0: an error
    envelope, or a body that is not an object, never comes back as a
    result. *)
Theorem returned_envelope_is_clean (blocking : bool) (net : network) (now : Z)
    (model prompt : str) (history : list (str * str)) (params : dict)
    (texts : list str) (truncate : option str) (w : World) (v : json) :
  fst (complete blocking net now model prompt history params w) = Ok v
  \/ fst (embed net now model texts truncate w) = Ok v ->
  exists d,
    v = JObj d
    /\ forall code, dict_get (lit "error_code") d = Some code -> ne_zero code = false.
Proof.
  intros [H|H].
  - rewrite complete_cases in H.
    destruct (get_token blocking net now w) as [[token|e] w1]; [|discriminate].
    destruct (net _) as [r|]; [|discriminate]. simpl in H.
    destruct (status_error blocking (status r)); [discriminate|].
    now apply read_envelope_ok in H.
  - unfold embed in H.
    destruct (batch_size_limit <? length texts); [discriminate|].
    unfold bind at 1, lift in H.
    destruct (embed_sentences truncate [] texts) as [sentences|e]; [|discriminate].
    rewrite embed_post_cases in H.
    destruct (grant_token net now w) as [[token|e] w1]; [|discriminate].
    destruct (net _) as [r|]; [|discriminate]. simpl in H.
    destruct (requests_status_error (status r)); [discriminate|].
    now apply read_envelope_ok in H.
Qed.

(** The plain envelope returned by a blocking completion. *)
Lemma returned_envelope_is_clean_witness :
  exists d,
    JObj plain_envelope = JObj d
    /\ forall code, dict_get (lit "error_code") d = Some code -> ne_zero code = false.
Proof.
  exact (@returned_envelope_is_clean true
           (serve Unreachable (json_reply 200 (JObj plain_envelope)))
           1000 (lit "ernie-bot") (lit "hi") [] [] [] None ready_world
           (JObj plain_envelope) (or_introl eq_refl)).
Defined.

(** ** The requests of a call *)

Lemma complete_sends (blocking : bool) (net : network) (now : Z)
    (model prompt : str) (history : list (str * str)) (params : dict)
    (w w1 : World) (token : json) :
  get_token blocking net now w = (Ok token, w1) ->
  sent (snd (complete blocking net now model prompt history params w))
  = sent w1
    ++ [ {| meth := POST;
            url := completions_url model;
            params := [(lit "access_token", token)];
            body := Some (JObj (completion_params prompt history false params));
            timeout := request_timeout (self w1);
            stream := false |} ].
Proof.
  intros Hg. rewrite complete_cases, Hg.
  destruct (net _) as [r|]; reflexivity.
Qed.

Lemma stream_sends (blocking : bool) (json_loads : str -> option json)
    (sse_events : Response -> list str) (net : network) (now : Z)
    (model prompt : str) (history : list (str * str)) (params : dict)
    (w w1 : World) (token : json) :
  get_token blocking net now w = (Ok token, w1) ->
  sent (snd ((if blocking
              then completion_stream json_loads sse_events
              else acompletion_stream json_loads)
               net now model prompt history params w))
  = sent w1
    ++ [ {| meth := POST;
            url := completions_url model;
            params := [(lit "access_token", token)];
            body := Some (JObj (completion_params prompt history true params));
            timeout := request_timeout (self w1);
            stream := blocking |} ].
Proof.
  intros Hg.
  destruct blocking; unfold completion_stream, acompletion_stream;
    rewrite stream_with_cases; unfold get_token in Hg; rewrite Hg;
    (destruct (net _) as [r|]; reflexivity).
Qed.

Lemma completion_params_lookup (prompt : str) (history : list (str * str))
    (streaming : bool) (params : dict) :
  dict_get (lit "messages") (completion_params prompt history streaming params)
  = Some (JList (construct_message prompt history))
  /\ dict_get (lit "stream") (completion_params prompt history streaming params)
     = Some (JBool streaming)
  /\ (forall k,
        k <> lit "messages" -> k <> lit "stream" ->
        dict_get k (completion_params prompt history streaming params)
        = dict_get k params).
Proof.
  unfold completion_params. split; [|split].
  - rewrite dict_get_set_other by discriminate. apply dict_get_set_same.
  - apply dict_get_set_same.
  - intros k Hm Hs. now rewrite !dict_get_set_other.
Qed.

(** X1. Once get-token has returned, every completion call logs one POST
    whose JSON body is an object in which [messages] is the list that
    [construct_message] builds and [stream] is false for the non-streaming
    calls and true for the generators, whatever the caller passed under
    these two names; every other keyword of the caller is in the body with
    the value the caller gave it. *)
Theorem completion_params_override (blocking : bool) (net : network) (now : Z)
    (model prompt : str) (history : list (str * str)) (params : dict)
    (w w1 : World) (token : json) :
  get_token blocking net now w = (Ok token, w1) ->
  (exists d,
     sent (snd (complete blocking net now model prompt history params w))
     = sent w1
       ++ [ {| meth := POST;
               url := completions_url model;
               params := [(lit "access_token", token)];
               body := Some (JObj d);
               timeout := request_timeout (self w1);
               stream := false |} ]
     /\ dict_get (lit "messages") d = Some (JList (construct_message prompt history))
     /\ dict_get (lit "stream") d = Some (JBool false)
     /\ (forall k, k <> lit "messages" -> k <> lit "stream" ->
                   dict_get k d = dict_get k params))
  /\ (forall json_loads sse_events,
      exists d,
        sent (snd ((if blocking
                    then completion_stream json_loads sse_events
                    else acompletion_stream json_loads)
                     net now model prompt history params w))
        = sent w1
          ++ [ {| meth := POST;
                  url := completions_url model;
                  params := [(lit "access_token", token)];
                  body := Some (JObj d);
                  timeout := request_timeout (self w1);
                  stream := blocking |} ]
        /\ dict_get (lit "messages") d = Some (JList (construct_message prompt history))
        /\ dict_get (lit "stream") d = Some (JBool true)
        /\ (forall k, k <> lit "messages" -> k <> lit "stream" ->
                      dict_get k d = dict_get k params)).
Proof.
  intros Hg. split.
  - exists (completion_params prompt history false params).
    split; [now apply complete_sends | apply completion_params_lookup].
  - intros json_loads sse_events.
    exists (completion_params prompt history true params).
    split; [now apply stream_sends | apply completion_params_lookup].
Qed.

(** A caller that passes [stream] and [temperature] keywords of its own. *)
Lemma completion_params_override_witness :
  exists d,
    sent (snd (complete true (serve Unreachable Unreachable) 1000 (lit "ernie-bot")
                 (lit "hi") []
                 [(lit "stream", JBool true); (lit "temperature", JNum 1)]
                 ready_world))
    = sent ready_world
      ++ [ {| meth := POST;
              url := completions_url (lit "ernie-bot");
              params := [(lit "access_token", JStr (lit "tok"))];
              body := Some (JObj d);
              timeout := request_timeout (self ready_world);
              stream := false |} ]
    /\ dict_get (lit "messages") d = Some (JList (construct_message (lit "hi") []))
    /\ dict_get (lit "stream") d = Some (JBool false)
    /\ (forall k, k <> lit "messages" -> k <> lit "stream" ->
                  dict_get k d
                  = dict_get k [(lit "stream", JBool true); (lit "temperature", JNum 1)]).
Proof.
  exact (proj1 (@completion_params_override true (serve Unreachable Unreachable) 1000
                  (lit "ernie-bot") (lit "hi") []
                  [(lit "stream", JBool true); (lit "temperature", JNum 1)]
                  ready_world ready_world (JStr (lit "tok")) eq_refl)).
Defined.

(** X12. A non-streaming completion leaves the client as get-token leaves
    it, and logs, in this order: the credential request, only when the cache
    was not valid, and then one POST to the resolved URL with the token
    get-token returned as [access_token] and the parameters as JSON body,
    only when get-token returned. *)
Theorem complete_requests (blocking : bool) (net : network) (now : Z)
    (model prompt : str) (history : list (str * str)) (params : dict) (w : World) :
  self (snd (complete blocking net now model prompt history params w))
  = self (snd (get_token blocking net now w))
  /\ sent (snd (complete blocking net now model prompt history params w))
     = sent w
       ++ (if token_valid (self w) now then [] else [grant_request (self w)])
       ++ match fst (get_token blocking net now w) with
          | Ok token =>
              [ {| meth := POST;
                   url := completions_url model;
                   params := [(lit "access_token", token)];
                   body := Some (JObj (dict_set (lit "stream") (JBool false)
                                         (dict_set (lit "messages")
                                            (JList (construct_message prompt history))
                                            params)));
                   timeout := request_timeout (self (snd (get_token blocking net now w)));
                   stream := false |} ]
          | Raise _ => []
          end.
Proof.
  rewrite complete_cases.
  pose proof (grant_log (status_error blocking) net now w) as Hlog.
  rewrite <- get_token_grant in Hlog.
  destruct (get_token blocking net now w) as [[token|e] w1]; simpl in *.
  - destruct (net _) as [r|]; simpl; rewrite Hlog, <- app_assoc; split; reflexivity.
  - rewrite Hlog, app_nil_r. split; reflexivity.
Qed.

(** ** What no call touches *)

Lemma same_config_refl (c : WenxinClient) : same_config c c.
Proof. repeat split. Qed.

Lemma grant_same_config (is_error : Z -> bool) (net : network) (now : Z) (w : World) :
  same_config (self w) (self (snd (grant_with is_error net now w))).
Proof.
  run_grant.
  destruct (token_valid (self w) now); [apply same_config_refl|].
  destruct (net _) as [r|]; [|apply same_config_refl].
  destruct (is_error (status r)); [apply same_config_refl|].
  destruct (json_body r) as [response|]; [|apply same_config_refl].
  destruct (getitem response (lit "access_token")) as [tok|e];
    [|apply same_config_refl].
  simpl.
  destruct (getitem response (lit "expires_in")) as [x|e]; [|repeat split].
  destruct (int_add now x); repeat split.
Qed.

(** X14. No operation of the client writes its credentials or its timeout:
    after get-token, a completion, an embedding call or a streaming
    generator, in either mode and whatever the transport answers, the API
    key, the secret key and the request timeout are those of before. *)
Theorem calls_keep_config (blocking : bool) (net : network) (now : Z) (w : World) :
  same_config (self w) (self (snd (get_token blocking net now w)))
  /\ (forall model prompt history params,
        same_config (self w)
          (self (snd (complete blocking net now model prompt history params w))))
  /\ (forall model texts truncate,
        same_config (self w) (self (snd (embed net now model texts truncate w))))
  /\ (forall json_loads sse_events model prompt history params,
        same_config (self w)
          (self (snd ((if blocking
                       then completion_stream json_loads sse_events
                       else acompletion_stream json_loads)
                        net now model prompt history params w)))).
Proof.
  assert (Hg : forall b, same_config (self w) (self (snd (get_token b net now w)))).
  { intros b. rewrite get_token_grant. apply grant_same_config. }
  split; [apply Hg|]. split; [|split].
  - intros model prompt history params. rewrite complete_cases.
    specialize (Hg blocking).
    destruct (get_token blocking net now w) as [[token|e] w1]; [|exact Hg].
    destruct (net _); exact Hg.
  - intros model texts truncate. unfold embed.
    destruct (batch_size_limit <? length texts); [apply same_config_refl|].
    unfold bind at 1, lift.
    destruct (embed_sentences truncate [] texts); [|apply same_config_refl].
    rewrite embed_post_cases. specialize (Hg true). unfold get_token in Hg.
    destruct (grant_token net now w) as [[token|e] w1]; [|exact Hg].
    destruct (net _); exact Hg.
  - intros json_loads sse_events model prompt history params.
    specialize (Hg blocking).
    destruct blocking; unfold completion_stream, acompletion_stream;
      rewrite stream_with_cases; unfold get_token in Hg.
    + destruct (grant_token net now w) as [[token|e] w1]; [|exact Hg].
      destruct (net _); exact Hg.
    + destruct (async_grant_token net now w) as [[token|e] w1]; [|exact Hg].
      destruct (net _); exact Hg.
Qed.

(** ** The payload of [embed] *)

Lemma embed_sentences_bounded (truncate : option str) (texts : list str) :
  forall acc sentences,
    embed_sentences truncate acc texts = Ok sentences ->
    exists added,
      sentences = acc ++ added
      /\ length added = length texts
      /\ Forall (fun s => length s <= chars_limit) added.
Proof.
  induction texts as [|t rest IH]; intros acc sentences H; cbn [embed_sentences] in H.
  - inversion H; subst. exists []. rewrite app_nil_r. repeat split. constructor.
  - destruct (truncate_is truncate (lit "START")).
    { destruct (IH _ _ H) as (added & -> & Hlen & Hall).
      exists (last_chars chars_limit t :: added). rewrite <- app_assoc.
      repeat split; [simpl; lia|]. constructor; [|exact Hall].
      rewrite (proj2 (last_chars_parts chars_limit t)). lia. }
    destruct (truncate_is truncate (lit "END")).
    { destruct (IH _ _ H) as (added & -> & Hlen & Hall).
      exists (first_chars chars_limit t :: added). rewrite <- app_assoc.
      repeat split; [simpl; lia|]. constructor; [|exact Hall].
      rewrite (proj2 (first_chars_parts chars_limit t)). lia. }
    destruct (Nat.ltb_spec chars_limit (length t)); [discriminate|].
    destruct (IH _ _ H) as (added & -> & Hlen & Hall).
    exists (t :: added). rewrite <- app_assoc.
    repeat split; [simpl; lia|]. now constructor.
Qed.

Lemma embed_sentences_raises (truncate : option str) (texts : list str) :
  forall acc e,
    embed_sentences truncate acc texts = Raise e -> exists msg, e = ValueError msg.
Proof.
  induction texts as [|t rest IH]; intros acc e H; cbn [embed_sentences] in H.
  - discriminate.
  - destruct (truncate_is truncate (lit "START")); [exact (IH _ _ H)|].
    destruct (truncate_is truncate (lit "END")); [exact (IH _ _ H)|].
    destruct (chars_limit <? length t)%nat; [|exact (IH _ _ H)].
    inversion H. eexists; reflexivity.
Qed.

(** X15. Whatever the truncate mode, [embed] either stops on a validation
    error with the world untouched, or goes on with a list of sentences, one
    per text, at most 16 of them, each of at most 384 characters; and once
    get-token has returned, the one POST it logs has the JSON body
    [{"input": sentences}]. *)
Theorem embed_payload_within_limits (net : network) (now : Z) (model : str)
    (texts : list str) (truncate : option str) (w : World) :
  (exists msg, embed net now model texts truncate w = (Raise (ValueError msg), w))
  \/ (exists sentences,
        length sentences = length texts
        /\ length sentences <= 16
        /\ Forall (fun s => length s <= 384) sentences
        /\ embed net now model texts truncate w
           = embed_post net now model (embed_payload sentences) w
        /\ (forall token w1,
              grant_token net now w = (Ok token, w1) ->
              sent (snd (embed net now model texts truncate w))
              = sent w1
                ++ [ {| meth := POST;
                        url := lit "https://aip.baidubce.com/rpc/2.0/ai_custom/v1/wenxinworkshop/embeddings/"
                               ++ model;
                        params := [(lit "access_token", token)];
                        body := Some (JObj [(lit "input", JList (map JStr sentences))]);
                        timeout := request_timeout (self w1);
                        stream := false |} ])).
Proof.
  unfold embed.
  destruct (Nat.ltb_spec batch_size_limit (length texts)) as [Hbig|Hfit].
  { left. eexists; reflexivity. }
  unfold bind at 1, lift.
  destruct (embed_sentences truncate [] texts) as [sentences|e] eqn:Hs.
  - right. exists sentences.
    destruct (embed_sentences_bounded _ _ _ Hs) as (added & -> & Hlen & Hall).
    simpl. unfold batch_size_limit in Hfit.
    split; [exact Hlen|].
    split; [exact (Nat.le_trans _ _ _ (Nat.eq_le_incl _ _ Hlen) Hfit)|].
    split; [exact Hall|]. split; [reflexivity|].
    intros token w1 Hg. now apply embed_post_sends.
  - left. destruct (embed_sentences_raises _ _ _ Hs) as (msg & ->).
    exists msg. reflexivity.
Qed.

Lemma last_chars_short {A : Type} (n : nat) (t : list A) :
  length t <= n -> last_chars n t = t.
Proof.
  intros H. unfold last_chars. replace (length t - n) with 0 by lia. reflexivity.
Qed.

Lemma first_chars_short {A : Type} (n : nat) (t : list A) :
  length t <= n -> first_chars n t = t.
Proof. intros H. unfold first_chars. now apply firstn_all2. Qed.

Lemma map_short (f : str -> str) (texts : list str) :
  (forall t, length t <= chars_limit -> f t = t) ->
  Forall (fun t => length t <= chars_limit) texts ->
  map f texts = texts.
Proof.
  intros Hf. induction 1 as [|t rest Ht _ IH]; simpl; [reflexivity|].
  now rewrite (Hf t Ht), IH.
Qed.

(** X16. For texts that are all within 384 characters the truncate mode
    makes no difference: under "START", under "END" and without a mode the
    payload is the list of texts itself. *)
Theorem truncate_spares_short_texts (texts : list str) (truncate : option str) :
  Forall (fun t => length t <= 384) texts ->
  embed_sentences truncate [] texts = Ok texts.
Proof.
  intros Hall.
  destruct (truncate_is truncate (lit "START")) eqn:E1.
  { destruct truncate as [s|]; [|discriminate]. apply str_eqb_eq in E1; subst s.
    rewrite embed_sentences_start. cbn [app]. f_equal.
    exact (map_short _ (@last_chars_short _ chars_limit) Hall). }
  destruct (truncate_is truncate (lit "END")) eqn:E2.
  { destruct truncate as [s|]; [|discriminate]. apply str_eqb_eq in E2; subst s.
    rewrite embed_sentences_end. cbn [app]. f_equal.
    exact (map_short _ (@first_chars_short _ chars_limit) Hall). }
  apply (@embed_sentences_kept truncate); try exact Hall;
    intros ->; [vm_compute in E1 | vm_compute in E2]; discriminate.
Qed.

(** Two short texts under "START". *)
Lemma truncate_spares_short_texts_witness :
  embed_sentences (Some (lit "START")) [] [lit "hello"; lit "world"]
  = Ok [lit "hello"; lit "world"].
Proof.
  apply (@truncate_spares_short_texts [lit "hello"; lit "world"] (Some (lit "START"))).
  repeat constructor; simpl; lia.
Defined.

(** X17. Without a truncate mode the texts are checked in order and the
    error names the length of the first text that is too long; the texts
    after it are not looked at. *)
Theorem first_long_text_reported (truncate : option str)
    (short : list str) (t : str) (rest : list str) :
  truncate <> Some (lit "START") ->
  truncate <> Some (lit "END") ->
  Forall (fun s => length s <= 384) short ->
  384 < length t ->
  embed_sentences truncate [] (short ++ t :: rest)
  = Raise (ValueError (lit "input text length " ++ str_of_nat (length t)
                         ++ lit " is greater than 384.")).
Proof.
  intros Hs He Hall Hlong. generalize (@nil str).
  induction Hall as [|s short Hshort _ IH]; intros acc; cbn [app embed_sentences];
    rewrite !truncate_is_other by assumption.
  - destruct (Nat.ltb_spec chars_limit (length t)); [reflexivity|].
    unfold chars_limit in *; lia.
  - destruct (Nat.ltb_spec chars_limit (length s));
      [unfold chars_limit in *; lia | apply IH].
Qed.

(** A short text, one of 385 characters, one of 400. *)
Lemma first_long_text_reported_witness :
  embed_sentences None [] [lit "ok"; repeat 97%N 385; repeat 98%N 400]
  = Raise (ValueError (lit "input text length 385 is greater than 384.")).
Proof.
  refine (@first_long_text_reported None [lit "ok"] (repeat 97%N 385) [repeat 98%N 400]
            _ _ _ _); try discriminate.
  - repeat constructor; simpl; lia.
  - rewrite repeat_length. lia.
Defined.

(** ** The streaming generators off and on the stream *)

(** X18. A streaming request answered with something else than an event
    stream, whose body is an error envelope, makes both generators raise the
    provider failure with the envelope's code and message, before anything
    is yielded. *)
Theorem stream_fallback_reports_error (json_loads : str -> option json)
    (sse_events : Response -> list str) (r : Response) (d : dict) (code : json) :
  is_event_stream r = false ->
  json_body r = Some (JObj d) ->
  dict_get (lit "error_code") d = Some code ->
  ne_zero code = true ->
  completion_stream_body json_loads sse_events r
  = {| yielded := [];
       finished := Raise (WenxinFailed code
                            (match dict_get (lit "error_msg") d with
                             | Some m => m
                             | None => JStr (lit "Unknown error")
                             end) false) |}
  /\ acompletion_stream_body json_loads r
     = completion_stream_body json_loads sse_events r.
Proof.
  intros Hes Hj Hc Hz.
  unfold completion_stream_body, acompletion_stream_body, read_envelope.
  rewrite Hes, Hj, check_envelope_object, Hc, Hz. split; reflexivity.
Qed.

(** The quota envelope in answer to a streaming request. *)
Lemma stream_fallback_reports_error_witness :
  acompletion_stream_body loads (json_response 200 (JObj quota_envelope))
  = completion_stream_body loads (fun _ => []) (json_response 200 (JObj quota_envelope)).
Proof.
  exact (proj2 (@stream_fallback_reports_error loads (fun _ => [])
                  (json_response 200 (JObj quota_envelope)) quota_envelope (JNum 17)
                  eq_refl eq_refl eq_refl eq_refl)).
Defined.

(** X19. The non-blocking loop looks for [data:] at the very start of a
    frame: frames that decode and begin with anything else, a comment, a
    keep-alive or an [event:] line ahead of the data, are dropped without a
    trace, whatever they carry. *)
Theorem other_frames_dropped (json_loads : str -> option json) (frames : list bytes) :
  Forall (fun frame =>
            exists text, decode frame = Ok text
                         /\ startswith N.eqb text (lit "data:") = false) frames ->
  forall rest, yield_frames json_loads (frames ++ rest) = yield_frames json_loads rest.
Proof.
  induction 1 as [|frame frames (text & Hd & Hs) _ IH]; intros rest; [reflexivity|].
  cbn [app yield_frames]. rewrite Hd, Hs. cbn [negb]. apply IH.
Qed.

(** An event that is announced by an [event:] line is lost; the one that
    follows it is delivered. *)
Lemma other_frames_dropped_witness :
  yield_frames loads [blit ("event: message" ++ lf) ++ event_bytes; event_bytes]
  = yield_frames loads [event_bytes].
Proof.
  refine (@other_frames_dropped loads [blit ("event: message" ++ lf) ++ event_bytes]
            _ [event_bytes]).
  constructor; [|constructor].
  eexists. split; reflexivity.
Defined.

Lemma yield_frames_bound (json_loads : str -> option json) (frames : list bytes) :
  length (yielded (yield_frames json_loads frames)) <= length frames.
Proof.
  induction frames as [|line rest IH]; cbn [yield_frames]; [simpl; lia|].
  destruct (decode line) as [text|e]; [|simpl; lia].
  destruct (negb (startswith N.eqb text (lit "data:"))); [simpl; lia|].
  destruct (json_loads _); simpl; lia.
Qed.

(** X20. On an event stream the non-blocking generator yields at most one
    event per chunk the transport delivered. *)
Theorem events_bounded_by_chunks (json_loads : str -> option json) (r : Response) :
  is_event_stream r = true ->
  length (yielded (acompletion_stream_body json_loads r)) <= length (content r).
Proof.
  intros H. unfold acompletion_stream_body. rewrite H. cbn [negb].
  pose proof (yield_frames_bound json_loads (read (content r))) as Hy.
  pose proof (read_from_bound (content r) []) as Hr. unfold read in *.
  simpl in Hr. lia.
Qed.

(** Two events delivered in one chunk: the frame holds both, its payload is
    not JSON, and nothing is yielded. *)
Lemma events_bounded_by_chunks_witness :
  length (yielded (acompletion_stream_body loads
                     {| status := 200;
                        content_type := Some (lit "text/event-stream");
                        json_body := None;
                        content := [event_bytes ++ event_bytes] |})) <= 1.
Proof.
  exact (@events_bounded_by_chunks loads
           {| status := 200;
              content_type := Some (lit "text/event-stream");
              json_body := None;
              content := [event_bytes ++ event_bytes] |} eq_refl).
Defined.
